(** * Membership lifecycle analytics (hud2.py, hud2_charts.py)

    A shallow embedding of the metric code of the repository and the
    properties its specification states about it.

    Conventions of the embedding.
    - Python [float] values are idealised as exact rationals ([Q]); the
      growth-ceiling projector, which calls [math.log], is stated over the
      reals ([R]).  Derived values are compared with [==] ([Qeq]).
    - A Python call that may raise is a value of [result]: [Ok v] or
      [Raise e].  Evaluation order and short-circuiting of [and]/[or] are
      kept, so the first exception met is the one reported.
    - The wall clock the calculators read ([datetime.now], [datetime.today])
      is a field of the ambient [World]; the Python functions have no such
      parameter.
    - A member dictionary is the record [Member]; the normalizer always writes
      every key, so [m.get(k)] and [m[k]] coincide on it. *)

From Stdlib Require Import ZArith QArith Qround Reals Lra Lia.
From Stdlib Require Import List String Ascii Bool Sorted.
From stdpp Require Import base gmap strings list.
Import ListNotations.

Local Open Scope Z_scope.

(** ** Python results *)

Module Py.

Inductive exn : Type :=
| ValueError | TypeError | AttributeError | OverflowError | ZeroDivisionError.

Inductive result (A : Type) : Type :=
| Ok (a : A)
| Raise (e : exn).
Arguments Ok {A} a.
Arguments Raise {A} e.

Definition bind {A B : Type} (r : result A) (k : A -> result B) : result B :=
  match r with
  | Ok a => k a
  | Raise e => Raise e
  end.

Notation "'try!' x ':=' c 'in' k" := (bind c (fun x => k))
  (at level 10, x name, c at level 100, k at level 200).

Definition is_ok {A : Type} (r : result A) : Prop :=
  match r with Ok _ => True | Raise _ => False end.

(** [try: body except Exception: handler] *)
Definition try_except {A : Type} (body : result A) (handler : result A)
  : result A :=
  match body with
  | Ok a => Ok a
  | Raise _ => handler
  end.

(** [a and b] on booleans, where [b] is evaluated only when [a] is true. *)
Definition and_then (a : result bool) (b : result bool) : result bool :=
  try! x := a in if x then b else Ok false.

(** [a or b] on booleans, where [b] is evaluated only when [a] is false. *)
Definition or_else (a : result bool) (b : result bool) : result bool :=
  try! x := a in if x then Ok true else b.

(** A list comprehension [[x for x in l if p(x)]] whose condition may raise. *)
Fixpoint filterM {A : Type} (p : A -> result bool) (l : list A)
  : result (list A) :=
  match l with
  | [] => Ok []
  | x :: l' =>
      try! b := p x in
      try! r := filterM p l' in
      Ok (if b then x :: r else r)
  end.

(** A [for] loop mapping a fallible body over a list, left to right. *)
Fixpoint mapM {A B : Type} (f : A -> result B) (l : list A)
  : result (list B) :=
  match l with
  | [] => Ok []
  | x :: l' =>
      try! y := f x in
      try! r := mapM f l' in
      Ok (y :: r)
  end.

(** Truthiness of an optional string: [None] and [""] are falsy. *)
Definition truthy (s : option string) : bool :=
  match s with
  | None => false
  | Some EmptyString => false
  | Some (String _ _) => true
  end.

End Py.
Export Py.

(** ** Numbers *)

Module PyNum.

(** rounding of an exact value to the nearest integer, ties to even *)
Definition round_half_even (x : Q) : Z :=
  let f := Qfloor x in
  match Qcompare (x - inject_Z f) (1 # 2) with
  | Lt => f
  | Gt => f + 1
  | Eq => if Z.even f then f else f + 1
  end.

(** [round(x, 2)] *)
Definition round2 (x : Q) : Q :=
  (inject_Z (round_half_even (x * 100)) / 100)%Q.

(** [sum(xs)], which starts from [0] and adds from the left *)
Definition py_sum (xs : list Q) : Q := fold_left Qplus xs 0%Q.

End PyNum.
Export PyNum.

(** ** The proleptic Gregorian calendar of [datetime] *)

Module Calendar.

Record date : Type := mkdate { year : Z; month : Z; day : Z }.

(** time of day in microseconds since midnight *)
Record datetime : Type := mkdatetime { dt_date : date; dt_tod : Z }.

Definition midnight (d : date) : datetime := mkdatetime d 0.

Definition date_eqb (a b : date) : bool :=
  (year a =? year b) && (month a =? month b) && (day a =? day b).

Definition date_ltb (a b : date) : bool :=
  (year a <? year b)
  || ((year a =? year b)
      && ((month a <? month b)
          || ((month a =? month b) && (day a <? day b)))).

Definition date_leb (a b : date) : bool := date_ltb a b || date_eqb a b.

Definition dt_ltb (a b : datetime) : bool :=
  date_ltb (dt_date a) (dt_date b)
  || (date_eqb (dt_date a) (dt_date b) && (dt_tod a <? dt_tod b)).

Definition dt_eqb (a b : datetime) : bool :=
  date_eqb (dt_date a) (dt_date b) && (dt_tod a =? dt_tod b).

Definition dt_leb (a b : datetime) : bool := dt_ltb a b || dt_eqb a b.

Definition is_leap (y : Z) : bool :=
  (y mod 4 =? 0) && (negb (y mod 100 =? 0) || (y mod 400 =? 0)).

Definition days_in_month (y m : Z) : Z :=
  if (m =? 2) && is_leap y then 29
  else nth (Z.to_nat m) [0; 31; 28; 31; 30; 31; 30; 31; 31; 30; 31; 30; 31] 0.

Definition days_before_year (y : Z) : Z :=
  let p := y - 1 in p * 365 + p / 4 - p / 100 + p / 400.

Definition days_before_month (y m : Z) : Z :=
  nth (Z.to_nat m) [0; 0; 31; 59; 90; 120; 151; 181; 212; 243; 273; 304; 334] 0
  + (if (2 <? m) && is_leap y then 1 else 0).

(** [date.toordinal] *)
Definition ymd2ord (d : date) : Z :=
  days_before_year (year d) + days_before_month (year d) (month d) + day d.

(** [date.fromordinal] *)
Definition ord2ymd (ord : Z) : date :=
  let n := ord - 1 in
  let n400 := n / 146097 in
  let n := n mod 146097 in
  let y := n400 * 400 + 1 in
  let n100 := n / 36524 in
  let n := n mod 36524 in
  let n4 := n / 1461 in
  let n := n mod 1461 in
  let n1 := n / 365 in
  let n := n mod 365 in
  let y := y + n100 * 100 + n4 * 4 + n1 in
  if (n1 =? 4) || (n100 =? 4) then mkdate (y - 1) 12 31
  else
    let leapyear := (n1 =? 3) && (negb (n4 =? 24) || (n100 =? 3)) in
    let m := Z.shiftr (n + 50) 5 in
    let preceding :=
      nth (Z.to_nat m)
          [0; 0; 31; 59; 90; 120; 151; 181; 212; 243; 273; 304; 334] 0
      + (if (2 <? m) && leapyear then 1 else 0) in
    if n <? preceding then
      let m' := m - 1 in
      let preceding' :=
        preceding
        - (nth (Z.to_nat m')
               [0; 31; 28; 31; 30; 31; 30; 31; 31; 30; 31; 30; 31] 0
           + (if (m' =? 2) && leapyear then 1 else 0)) in
      mkdate y m' (n - preceding' + 1)
    else mkdate y m (n - preceding + 1).

(** [d - timedelta(days=n)] *)
Definition sub_days (d : date) (n : Z) : date := ord2ymd (ymd2ord d - n).

(** [d + relativedelta(months=n)] for [n >= 0]: the month advances, the year
    carries, and the day is clipped to the length of the target month. *)
Definition add_months (d : date) (n : Z) : date :=
  let t := month d - 1 + n in
  let y := year d + t / 12 in
  let m := t mod 12 + 1 in
  mkdate y m (Z.min (days_in_month y m) (day d)).

Definition dt_add_months (x : datetime) (n : Z) : datetime :=
  mkdatetime (add_months (dt_date x) n) (dt_tod x).

(** [x.replace(day=1)] *)
Definition replace_day1 (x : datetime) : datetime :=
  mkdatetime (mkdate (year (dt_date x)) (month (dt_date x)) 1) (dt_tod x).

Definition valid_date (d : date) : bool :=
  (1 <=? year d) && (year d <=? 9999)
  && (1 <=? month d) && (month d <=? 12)
  && (1 <=? day d) && (day d <=? days_in_month (year d) (month d)).

(** [x.strftime("%Y-%m")], kept as the pair it is printed from; on
    four-digit years the order of the strings is the order of the pairs. *)
Definition ym : Type := (Z * Z)%type.

Definition ym_of (x : datetime) : ym :=
  (year (dt_date x), month (dt_date x)).

Definition ym_eqb (a b : ym) : bool := (a.1 =? b.1) && (a.2 =? b.2).

Definition ym_ltb (a b : ym) : bool :=
  (a.1 <? b.1) || ((a.1 =? b.1) && (a.2 <? b.2)).

Definition dt_sub_days (x : datetime) (n : Z) : datetime :=
  mkdatetime (sub_days (dt_date x) n) (dt_tod x).

End Calendar.
Export Calendar.

(** ** [datetime.strptime(s, "%Y-%m-%d")]

    The format compiles to the pattern
    [(\d\d\d\d)-(1[0-2]|0[1-9]|[1-9])-(3[01]|[12]\d|0[1-9]|[1-9]| [1-9])]
    which must cover the whole string; the fields are then checked against
    the calendar.  Digits are the ASCII digits. *)

Module Strptime.

Definition is_digit (c : ascii) : bool :=
  let n := Z.of_N (N_of_ascii c) in (48 <=? n) && (n <=? 57).

Definition digit_val (c : ascii) : Z := Z.of_N (N_of_ascii c) - 48.

Fixpoint split_on (sep : ascii) (s : string) : list string :=
  match s with
  | EmptyString => [EmptyString]
  | String c s' =>
      if Ascii.eqb c sep then EmptyString :: split_on sep s'
      else match split_on sep s' with
           | h :: t => String c h :: t
           | [] => [String c EmptyString]
           end
  end.

Definition parse_year (s : string) : option Z :=
  match s with
  | String a (String b (String c (String d EmptyString))) =>
      if is_digit a && is_digit b && is_digit c && is_digit d
      then Some (digit_val a * 1000 + digit_val b * 100
                 + digit_val c * 10 + digit_val d)
      else None
  | _ => None
  end.

Definition parse_month (s : string) : option Z :=
  match s with
  | String a EmptyString =>
      if is_digit a && (1 <=? digit_val a) then Some (digit_val a) else None
  | String a (String b EmptyString) =>
      if is_digit a && is_digit b then
        let v := digit_val a * 10 + digit_val b in
        if (1 <=? v) && (v <=? 12) then Some v else None
      else None
  | _ => None
  end.

Definition parse_day (s : string) : option Z :=
  match s with
  | String a EmptyString =>
      if is_digit a && (1 <=? digit_val a) then Some (digit_val a) else None
  | String a (String b EmptyString) =>
      if Ascii.eqb a " " then
        if is_digit b && (1 <=? digit_val b) then Some (digit_val b) else None
      else if is_digit a && is_digit b then
        let v := digit_val a * 10 + digit_val b in
        if (1 <=? v) && (v <=? 31) then Some v else None
      else None
  | _ => None
  end.

Definition strptime_ymd (s : string) : result datetime :=
  match split_on "-" s with
  | [ys; ms; ds] =>
      match parse_year ys, parse_month ms, parse_day ds with
      | Some y, Some m, Some d =>
          if valid_date (mkdate y m d) then Ok (midnight (mkdate y m d))
          else Raise ValueError
      | _, _, _ => Raise ValueError
      end
  | _ => Raise ValueError
  end.

(** [datetime.strptime(s, "%Y-%m-%d").date()] *)
Definition strptime_date (s : string) : result date :=
  try! x := strptime_ymd s in Ok (dt_date x).

End Strptime.
Export Strptime.

(** ** Members and the ambient world *)

Module Model.

Inductive PlanType : Type := annual | monthly | one_time | unknown.

Definition plan_eqb (a b : PlanType) : bool :=
  match a, b with
  | annual, annual | monthly, monthly
  | one_time, one_time | unknown, unknown => true
  | _, _ => false
  end.

(** The dictionary written by [convert_member_to_hud2].  [joined_at] and
    [exited_at] are ISO date strings or [None].  [joined_at_dt] and
    [exited_at_dt] are the two keys [calculate_monthly_metrics] adds to the
    dictionary it is given: [None] while the key is absent. *)
Record Member : Type := mkMember {
  m_id : string;
  joined_at : option string;
  exited_at : option string;
  is_active : bool;
  mrr : Q;
  price : Q;
  plan_type : PlanType;
  joined_at_dt : option (option datetime);
  exited_at_dt : option (option datetime)
}.

(** What the clock calls of the calculators return at the time of a run:
    [datetime.now(timezone.utc)] and [datetime.now()] / [datetime.today()]. *)
Record World : Type := mkWorld { utc_now : datetime; local_now : datetime }.

(** [m["k"]] for a key holding a string, used after a truthiness test. *)
Definition str_of (o : option string) : string :=
  match o with Some s => s | None => EmptyString end.


End Model.
Export Model.

(** ** Churn rate over the past 30 days (hud2.py, [churn_count_past_30]) *)

Module Churn.

(** condition of the [starting] comprehension *)
Definition starting_cond (days_ago_30 : date) (no_annual : bool) (m : Member)
  : result bool :=
  and_then (Ok (truthy (joined_at m)))
  (and_then (try! j := strptime_date (str_of (joined_at m)) in
             Ok (date_leb j days_ago_30))
  (and_then (or_else (Ok (negb (truthy (exited_at m))))
                     (try! e := strptime_date (str_of (exited_at m)) in
                      Ok (date_ltb days_ago_30 e)))
            (Ok (negb no_annual || negb (plan_eqb (plan_type m) annual))))).

(** condition of the [churned] comprehension *)
Definition churned_cond (days_ago_30 now : date) (no_annual : bool)
  (m : Member) : result bool :=
  and_then (Ok (truthy (exited_at m)))
  (and_then (try! e := strptime_date (str_of (exited_at m)) in
             Ok (date_leb days_ago_30 e && date_leb e now))
            (Ok (negb no_annual || negb (plan_eqb (plan_type m) annual)))).

Definition window_start (w : World) : date :=
  sub_days (dt_date (utc_now w)) 30.

Definition starting (w : World) (no_annual : bool) (ms : list Member)
  : result (list Member) :=
  filterM (starting_cond (window_start w) no_annual) ms.

Definition churned (w : World) (no_annual : bool) (ms : list Member)
  : result (list Member) :=
  filterM (churned_cond (window_start w) (dt_date (utc_now w)) no_annual) ms.

(** [len(churned) / len(starting) * 100 if starting else 0] *)
Definition rate_percent (n_churned n_starting : nat) : Q :=
  match n_starting with
  | O => 0
  | S _ => inject_Z (Z.of_nat n_churned) / inject_Z (Z.of_nat n_starting) * 100
  end.

(** The [debug] flag only prints and is left out. *)
Definition churn_count_past_30 (w : World) (formatted_members : list Member)
  (no_annual : bool) : result Q :=
  try! s := starting w no_annual formatted_members in
  try! c := churned w no_annual formatted_members in
  Ok (rate_percent (length c) (length s)).

End Churn.
Export Churn.

(** ** Year-to-date revenue (hud2.py, [get_total_rev_ytd_recurring_only]) *)

Module RevenueYTD.

(** [max(joined_at_dt, first_of_year)] *)
Definition date_max (a b : date) : date := if date_ltb a b then b else a.

(** The month counter of a recurring member, with its overwrites in the
    order the source applies them, ending with [max(0, month_count)]. *)
Definition month_count (now joined : date) (exited : option date)
  (start end_ : date) : Z :=
  let current_year := year now in
  let exited_this_year :=
    match exited with
    | Some e => year e =? current_year
    | None => false
    end in
  let exit_month := match exited with Some e => month e | None => 0 end in
  let no_exit := match exited with Some _ => false | None => true end in
  let mc := (year end_ - year start) * 12 + (month end_ - month start) + 1 in
  let mc := if year joined <? current_year then month end_ else mc in
  let mc := if exited_this_year && (year joined <? current_year)
            then exit_month else mc in
  let mc := if exited_this_year && (year joined =? current_year)
            then exit_month - month joined + 1 else mc in
  let mc := if no_exit && (year joined =? current_year)
            then month now - month joined + 1 else mc in
  let mc := if no_exit && (year joined <? current_year)
            then month now else mc in
  Z.max 0 mc.

(** What one member adds to [total_rev]: the body of the [for] loop, where
    every [continue] adds nothing. *)
Definition member_revenue (now : date) (m : Member) : result Q :=
  if negb (truthy (joined_at m)) then Ok 0%Q
  else
    try! joined := strptime_date (str_of (joined_at m)) in
    try! exited :=
      (if truthy (exited_at m)
       then try! e := strptime_date (str_of (exited_at m)) in Ok (Some e)
       else Ok None) in
    let current_year := year now in
    let first_of_year := mkdate current_year 1 1 in
    if plan_eqb (plan_type m) annual then
      let active_start :=
        date_leb joined now
        && match exited with
           | None => true
           | Some e => date_leb first_of_year e
           end in
      Ok (if active_start then price m else 0%Q)
    else if Qeq_bool (mrr m) 0 then Ok 0%Q
    else
      let start := date_max joined first_of_year in
      let end_ :=
        match exited with
        | Some e => if year e =? current_year then e else now
        | None => now
        end in
      if year end_ <? current_year then Ok 0%Q
      else if current_year <? year start then Ok 0%Q
      else Ok (mrr m * inject_Z (month_count now joined exited start end_))%Q.

Fixpoint total_from (now : date) (total_rev : Q) (members : list Member)
  : result Q :=
  match members with
  | [] => Ok total_rev
  | m :: rest =>
      try! x := member_revenue now m in
      total_from now (total_rev + x)%Q rest
  end.

Definition get_total_rev_ytd_recurring_only (w : World)
  (members : list Member) : result Q :=
  total_from (dt_date (local_now w)) 0%Q members.

End RevenueYTD.
Export RevenueYTD.

(** ** Growth ceiling projector (hud2.py, [calculate_growth_metrics])

    Stated over the reals because of [math.log]. *)

Module GrowthCeiling.

Local Open Scope R_scope.

Record GrowthMetrics : Type := mkGrowth {
  member_ceiling : option R;
  growth_rate : R;
  mrr_ceiling : option R;
  potential_max_revenue : option R;
  days_to_growth_ceiling : option R;
  days_to_member_ceiling : option R;
  months_to_growth_ceiling : option R
}.

(** [a / b], which raises on a zero divisor *)
Definition py_div (a b : R) : result R :=
  if Req_dec_T b 0 then Raise ZeroDivisionError else Ok (a / b).

(** [math.log(x)], which raises outside its domain *)
Definition py_log (x : R) : result R :=
  if Rle_dec x 0 then Raise ValueError else Ok (ln x).

(** The closure [time_to_pct_ceiling(pct)], with the variables it captures
    ([member_ceiling], [current_members], [churn_rate]) as parameters. *)
Definition time_to_pct_ceiling (ceiling : R) (current_members : Z)
  (churn_rate : R) (pct : R) : result R :=
  if Req_dec_T ceiling 0 then Ok 0
  else if Rge_dec (IZR current_members) ceiling then Ok 0
  else
    try! ratio := py_div (ceiling - pct * ceiling)
                         (ceiling - IZR current_members) in
    if Rle_dec ratio 0 then Ok 0
    else
      try! l := py_log ratio in
      py_div (- l) churn_rate.

Definition calculate_growth_metrics (current_members : Z)
  (monthly_acquisition monthly_churn_count churn_rate average_price : R)
  (ceiling_pct_growth ceiling_pct_member : R) : result GrowthMetrics :=
  if Req_dec_T churn_rate 0 then
    Ok (mkGrowth None 0 None None None None None)
  else
    try! ceiling := py_div monthly_acquisition churn_rate in
    let mrr_c := ceiling * average_price in
    let potential := mrr_c * 12 in
    try! growth :=
      (if Rgt_dec (IZR current_members) 0
       then py_div (monthly_acquisition - monthly_churn_count)
                   (IZR current_members)
       else Ok 0) in
    try! months_growth :=
      time_to_pct_ceiling ceiling current_members churn_rate
                          ceiling_pct_growth in
    let days_growth := months_growth * (3044 / 100) in
    try! months_member :=
      time_to_pct_ceiling ceiling current_members churn_rate
                          ceiling_pct_member in
    let days_member := months_member * (3044 / 100) in
    Ok (mkGrowth (Some ceiling) growth (Some mrr_c) (Some potential)
                 (Some days_growth) (Some days_member) (Some months_growth)).

(** the defaults of the two percentage parameters *)
Definition ceiling_pct_growth_default : R := 95 / 100.
Definition ceiling_pct_member_default : R := 99 / 100.

End GrowthCeiling.
Export GrowthCeiling.

(** ** Cohort retention (hud2.py, [generate_cohort_retention_table]) *)

Module Cohort.

(** [cohorts[k].append(m)] on a [defaultdict(list)], which keeps the keys
    in the order they were first used *)
Fixpoint cohort_append (k : ym) (m : Member)
  (cohorts : list (ym * list Member)) : list (ym * list Member) :=
  match cohorts with
  | [] => [(k, [m])]
  | (k', l) :: rest =>
      if ym_eqb k k' then (k', l ++ [m]) :: rest
      else (k', l) :: cohort_append k m rest
  end.

(** the grouping loop: members without a date that parses are passed over *)
Fixpoint group_members (members : list Member)
  (cohorts : list (ym * list Member)) : list (ym * list Member) :=
  match members with
  | [] => cohorts
  | m :: rest =>
      if negb (truthy (joined_at m)) then group_members rest cohorts
      else
        match strptime_ymd (str_of (joined_at m)) with
        | Ok x => group_members rest (cohort_append (ym_of x) m cohorts)
        | Raise _ => group_members rest cohorts
        end
  end.

(** [sorted(cohorts.items())]; the keys are distinct *)
Fixpoint insert_sorted (c : ym * list Member)
  (l : list (ym * list Member)) : list (ym * list Member) :=
  match l with
  | [] => [c]
  | c' :: rest =>
      if ym_ltb c.1 c'.1 then c :: l else c' :: insert_sorted c rest
  end.

Definition sorted_items (cohorts : list (ym * list Member))
  : list (ym * list Member) :=
  fold_right insert_sorted [] cohorts.

(** [datetime.strptime(v, "%Y-%m-%d") if v else None] *)
Definition parse_opt (v : option string) : result (option datetime) :=
  if truthy v then try! x := strptime_ymd (str_of v) in Ok (Some x)
  else Ok None.

(** the test of the innermost loop; a member whose dates do not parse is
    passed over by the [except] clause *)
Definition still_active_at (period_start period_end : datetime)
  (m : Member) : bool :=
  match (try! j := parse_opt (joined_at m) in
         try! e := parse_opt (exited_at m) in
         Ok (j, e)) with
  | Raise _ => false
  | Ok (None, _) => false
  | Ok (Some j, e) =>
      dt_leb j period_start
      && match e with
         | None => true
         | Some x => dt_leb period_end x
         end
  end.

Record Cell : Type := mkCell { offset : nat; count : Z; pct : Q }.

Record Row : Type := mkRow { cohort_month : ym; cells : list Cell }.

Definition cohort_start_of (k : ym) : datetime := midnight (mkdate k.1 k.2 1).

Definition period_start_of (k : ym) (n : nat) : datetime :=
  dt_add_months (cohort_start_of k) (Z.of_nat n).

Definition cell_at (k : ym) (cohort_members : list Member) (n : nat) : Cell :=
  let cohort_size := Z.of_nat (length cohort_members) in
  match n with
  | O => mkCell n cohort_size (round2 100)
  | S _ =>
      let still_active :=
        Z.of_nat (length (List.filter
          (still_active_at (period_start_of k n) (period_start_of k (S n)))
          cohort_members)) in
      mkCell n still_active
        (round2 (inject_Z still_active / inject_Z cohort_size * 100)%Q)
  end.

(** [for n in range(max_months)] with its [break] *)
Fixpoint cells_loop (today : datetime) (k : ym)
  (cohort_members : list Member) (ns : list nat) : list Cell :=
  match ns with
  | [] => []
  | n :: rest =>
      if dt_ltb today (period_start_of k n) then []
      else cell_at k cohort_members n
           :: cells_loop today k cohort_members rest
  end.

Fixpoint rows_loop (today : datetime) (max_months : nat)
  (items : list (ym * list Member)) : list Row :=
  match items with
  | [] => []
  | (k, cohort_members) :: rest =>
      match cohort_members with
      | [] => rows_loop today max_months rest
      | _ :: _ =>
          mkRow k (cells_loop today k cohort_members (seq 0 max_months))
          :: rows_loop today max_months rest
      end
  end.

Definition generate_cohort_retention_table (w : World)
  (members : list Member) (max_months : nat) : list Row :=
  let cohorts := group_members members [] in
  match List.filter (fun m => truthy (joined_at m)) members with
  | [] => []
  | _ :: _ => rows_loop (local_now w) max_months (sorted_items cohorts)
  end.

End Cohort.
Export Cohort.

(** ** Member normalizer (hud2.py, closures of [convert_member_to_hud2]) *)

Module Normalizer.

(** A value read from the fetched JSON. *)
Inductive py_value : Type :=
| VNone
| VBool (b : bool)
| VInt (z : Z)
| VFloat (q : Q)
| VStr (s : string)
| VOther.

(** An entry of the billing-product table; a field is [None] when the key
    is absent from the entry. *)
Record BillingProduct : Type := mkBillingProduct {
  bp_interval : option py_value;
  bp_price : option py_value
}.

(** The part of [member_obj["member"]] the closures read. *)
Record RawMember : Type := mkRawMember {
  billingProductId : option string;
  approvedAt : py_value;
  churned_at : py_value
}.

Definition value_truthy (v : py_value) : bool :=
  match v with
  | VNone => false
  | VBool b => b
  | VInt z => negb (z =? 0)
  | VFloat q => negb (Qeq_bool q 0)
  | VStr s => truthy (Some s)
  | VOther => true
  end.

(** [datetime.utcfromtimestamp(t)]: [t] is rounded to microseconds, split
    into days and time of day, and refused outside the years 1..9999. *)
Definition utcfromtimestamp (t : Q) : result datetime :=
  let us := round_half_even (t * 1000000) in
  let d := ord2ymd (719163 + us / 86400000000) in
  if (1 <=? year d) && (year d <=? 9999)
  then Ok (mkdatetime d (us mod 86400000000))
  else Raise ValueError.

(** [ts.replace("Z", "+00:00")] *)
Fixpoint replace_Z (s : string) : string :=
  match s with
  | EmptyString => EmptyString
  | String c s' =>
      if Ascii.eqb c "Z" then ("+00:00" ++ replace_Z s')%string
      else String c (replace_Z s')
  end.

(** the numeric branch of [parse_ts] *)
Definition parse_ts_number (ts : Q) : result (option date) :=
  let ts := if Qle_bool ts 1000000000000 then ts
            else (ts / 1000000000)%Q in
  try! x := utcfromtimestamp ts in
  Ok (Some (dt_date x)).

(** [interval in [...]] chain of the plan resolution *)
Definition plan_of_interval (interval : py_value) : PlanType :=
  match interval with
  | VStr s =>
      if String.eqb s "year" || String.eqb s "annual" then annual
      else if String.eqb s "month" || String.eqb s "monthly" then monthly
      else if String.eqb s "one_time" || String.eqb s "one-time"
      then one_time
      else unknown
  | _ => unknown
  end.

Section Builtins.

(** Library parsers whose grammar lies outside the repository. *)
Variable float_of_str : string -> result Q.
Variable int_of_str : string -> result Z.
Variable fromisoformat : string -> result datetime.

(** [float(v)]; an integer beyond the range of a double overflows *)
Definition py_float (v : py_value) : result Q :=
  match v with
  | VNone => Raise TypeError
  | VBool b => Ok (if b then 1 else 0)%Q
  | VInt z =>
      if Z.abs z <? 2 ^ 1024 - 2 ^ 970 then Ok (inject_Z z)
      else Raise OverflowError
  | VFloat q => Ok q
  | VStr s => float_of_str s
  | VOther => Raise TypeError
  end.

Definition parse_ts (ts : py_value) : result (option date) :=
  match ts with
  | VNone => Ok None
  | VBool b => parse_ts_number (if b then 1 else 0)%Q
  | VInt z => parse_ts_number (inject_Z z)
  | VFloat q => parse_ts_number q
  | VStr s =>
      try_except
        (try! x := fromisoformat (replace_Z s) in Ok (Some (dt_date x)))
        (try_except
           (try! n := int_of_str s in parse_ts_number (inject_Z n))
           (Ok None))
  | VOther => Ok None
  end.

Definition get_churn_date (member : RawMember) : result (option date) :=
  if value_truthy (churned_at member) then parse_ts (churned_at member)
  else Ok None.

Definition get_plan_type_price_and_mrr (member : RawMember)
  (billing_products : option (gmap string BillingProduct))
  : PlanType * Q * Q :=
  let unresolved := (unknown, 0%Q, 0%Q) in
  match billing_products with
  | None => unresolved
  | Some table =>
      if truthy (billingProductId member) && negb (bool_decide (table = ∅))
      then
        match table !! str_of (billingProductId member) with
        | None => unresolved
        | Some bp =>
            let interval :=
              match bp_interval bp with
              | Some v => v
              | None => VStr "unknown"
              end in
            let plan := plan_of_interval interval in
            let raw_price :=
              match bp_price bp with Some v => v | None => VInt 0 end in
            let price :=
              match py_float raw_price with
              | Ok x => x
              | Raise _ => 0%Q
              end in
            let mrr :=
              match plan with
              | annual => (price / 12)%Q
              | monthly => price
              | _ => 0%Q
              end in
            (plan, price, mrr)
        end
      else unresolved
  end.

End Builtins.

End Normalizer.
Export Normalizer.

(** ** Monthly time series (hud2_charts.py) *)

Module Monthly.

Record MonthlyRow : Type := mkMonthlyRow {
  row_community_slug : string;
  row_month : ym;
  row_mrr : Q;
  row_ltv : option Q;
  row_new_members : Z;
  row_acquisition_rate : Q;
  row_churned_members : Z;
  row_churn_rate : Q;
  row_price : Q
}.

(** [m["joined_at_dt"]] and [m["exited_at_dt"]] once the keys are set *)
Definition joined_dt (m : Member) : option datetime :=
  match joined_at_dt m with Some v => v | None => None end.

Definition exited_dt (m : Member) : option datetime :=
  match exited_at_dt m with Some v => v | None => None end.

(** [min(xs)]: ordering [None] against a datetime is a [TypeError] *)
Fixpoint min_loop (best : option datetime) (rest : list (option datetime))
  : result (option datetime) :=
  match rest with
  | [] => Ok best
  | x :: rest' =>
      match x, best with
      | Some a, Some b => min_loop (if dt_ltb a b then x else best) rest'
      | _, _ => Raise TypeError
      end
  end.

Definition py_min (xs : list (option datetime)) : result (option datetime) :=
  match xs with
  | [] => Raise ValueError
  | x :: rest => min_loop x rest
  end.

(** [max(xs)] on datetimes, first maximal element *)
Fixpoint max_loop (best : datetime) (rest : list datetime) : datetime :=
  match rest with
  | [] => best
  | x :: rest' => max_loop (if dt_ltb best x then x else best) rest'
  end.

(** the [while current <= end] loop of [month_range], at most [fuel] turns *)
Fixpoint month_range_loop (fuel : nat) (current end_ : datetime)
  : list datetime :=
  match fuel with
  | O => []
  | S fuel' =>
      if dt_leb current end_
      then current :: month_range_loop fuel' (dt_add_months current 1) end_
      else []
  end.

Definition month_index (x : datetime) : Z :=
  year (dt_date x) * 12 + month (dt_date x).

(** [month_range(start, end)]; the loop stops within
    [month_index end - month_index start + 2] turns *)
Definition month_range (start end_ : datetime) : list datetime :=
  month_range_loop (Z.to_nat (month_index end_ - month_index start + 2))
                   (replace_day1 start) end_.

(** [m["joined_at_dt"] <= b] *)
Definition joined_le (m : Member) (b : datetime) : result bool :=
  match joined_dt m with
  | Some j => Ok (dt_leb j b)
  | None => Raise TypeError
  end.

(** [m["exited_at_dt"] is None or m["exited_at_dt"] > b] *)
Definition not_exited_by (m : Member) (b : datetime) : bool :=
  match exited_dt m with
  | None => true
  | Some e => dt_ltb b e
  end.

Definition active_at (b : datetime) (m : Member) : result bool :=
  and_then (joined_le m b) (Ok (not_exited_by m b)).

(** [m["joined_at_dt"].year == s.year and m["joined_at_dt"].month == s.month] *)
Definition joined_in (s : datetime) (m : Member) : result bool :=
  match joined_dt m with
  | Some j => Ok (ym_eqb (ym_of j) (ym_of s))
  | None => Raise AttributeError
  end.

Definition exited_in (s : datetime) (m : Member) : result bool :=
  match exited_dt m with
  | Some e => Ok (ym_eqb (ym_of e) (ym_of s))
  | None => Ok false
  end.

Definition count_of (l : list Member) : Z := Z.of_nat (length l).

(** the body of the loop over the months *)
Definition month_row (community_slug : string) (members : list Member)
  (month_start : datetime) : result MonthlyRow :=
  let month_end := dt_sub_days (dt_add_months month_start 1) 1 in
  try! active_start := filterM (active_at month_start) members in
  try! active_end := filterM (active_at month_end) members in
  try! new_members := filterM (joined_in month_start) members in
  try! churned_members := filterM (exited_in month_start) members in
  let mrr_total := py_sum (map mrr active_end) in
  let churn_count := count_of churned_members in
  let churn_rate :=
    if 0 <? count_of active_start
    then (inject_Z churn_count / inject_Z (count_of active_start))%Q
    else 0%Q in
  let paying_active_start :=
    List.filter (fun m => negb (Qle_bool (mrr m) 0)) active_start in
  let arpu :=
    if 0 <? count_of paying_active_start
    then (mrr_total / inject_Z (count_of paying_active_start))%Q
    else 0%Q in
  let ltv :=
    if negb (Qle_bool churn_rate 0) then Some (arpu / churn_rate)%Q
    else None in
  let acq_rate :=
    if 0 <? count_of active_start
    then (inject_Z (count_of new_members)
          / inject_Z (count_of active_start))%Q
    else 0%Q in
  Ok (mkMonthlyRow community_slug (ym_of month_start) mrr_total ltv
        (count_of new_members) acq_rate churn_count churn_rate
        (py_sum (map price active_end))).

Section SecondFormat.

(** [datetime.strptime(s, "%Y-%m-%d %H:%M:%S.%f")] *)
Variable strptime_ymd_hmsf : string -> result datetime.

Definition parse_date (date_str : option string) : result (option datetime) :=
  match date_str with
  | None => Ok None
  | Some s =>
      match strptime_ymd s with
      | Ok x => Ok (Some x)
      | Raise ValueError =>
          try! x := strptime_ymd_hmsf s in Ok (Some x)
      | Raise e => Raise e
      end
  end.

(** the two assignments of the first loop, on one member *)
Definition annotate (m : Member) : result Member :=
  try! j := parse_date (joined_at m) in
  try! e := parse_date (exited_at m) in
  Ok (mkMember (m_id m) (joined_at m) (exited_at m) (is_active m) (mrr m)
        (price m) (plan_type m) (Some j) (Some e)).

(** The members as the first loop leaves them. *)
Definition annotate_all (members : list Member) : result (list Member) :=
  mapM annotate members.

Definition calculate_monthly_metrics (w : World) (members : list Member)
  (community_slug : string) : result (list MonthlyRow) :=
  match members with
  | [] => Ok []
  | _ :: _ =>
      try! members := annotate_all members in
      try! min_join := py_min (map joined_dt members) in
      let exits :=
        omap exited_dt members in
      let max_exit :=
        match exits ++ [local_now w] with
        | [] => local_now w
        | x :: rest => max_loop x rest
        end in
      match min_join with
      | None => Raise AttributeError
      | Some start =>
          mapM (month_row community_slug members) (month_range start max_exit)
      end
  end.

End SecondFormat.

End Monthly.
Export Monthly.

(** ** Readings of the library parsers used in the examples *)

Module Readings.

Fixpoint digits_value (acc : Z) (s : string) : option Z :=
  match s with
  | EmptyString => Some acc
  | String c s' =>
      if is_digit c then digits_value (acc * 10 + digit_val c) s' else None
  end.

(** [float] on a string: the reading of a plain run of ASCII digits; any
    other string is refused. *)
Definition float_of_digits (s : string) : result Q :=
  match s with
  | EmptyString => Raise ValueError
  | String _ _ =>
      match digits_value 0 s with
      | Some z => Ok (inject_Z z)
      | None => Raise ValueError
      end
  end.

(** The second format of [parse_date] when no string at hand matches it. *)
Definition no_second_format (s : string) : result datetime :=
  Raise ValueError.

End Readings.
Export Readings.

(** ** Sample data *)

Module Samples.

Definition member_of (id : string) (joined exited : option string)
  (plan : PlanType) (price_ mrr_ : Q) : Member :=
  mkMember id joined exited (negb (truthy exited)) mrr_ price_ plan None None.

(** a run on 20 May 2024, ten in the morning *)
Definition may20 : World :=
  mkWorld (mkdatetime (mkdate 2024 5 20) 36000000000)
          (mkdatetime (mkdate 2024 5 20) 36000000000).

(** a run on 20 June 2024 *)
Definition june20 : World :=
  mkWorld (mkdatetime (mkdate 2024 6 20) 36000000000)
          (mkdatetime (mkdate 2024 6 20) 36000000000).

(** a run later on 20 May 2024 *)
Definition may20_evening : World :=
  mkWorld (mkdatetime (mkdate 2024 5 20) 72000000000)
          (mkdatetime (mkdate 2024 5 20) 72000000000).

Definition long_standing : Member :=
  member_of "m1" (Some "2024-01-01") None monthly 100 100.

Definition brief_one : Member :=
  member_of "m2" (Some "2024-05-05") (Some "2024-05-10") monthly 100 100.

Definition brief_two : Member :=
  member_of "m3" (Some "2024-05-06") (Some "2024-05-11") monthly 100 100.

Definition veteran : Member :=
  member_of "m4" (Some "2023-11-15") None monthly 100 100.

Definition left_last_year : Member :=
  member_of "m5" (Some "2022-03-10") (Some "2023-06-15") monthly 100 100.

Definition annual_all_year : Member :=
  member_of "m6" (Some "2023-02-01") None annual 1200 100.

Definition never_approved : Member :=
  member_of "m7" None None monthly 100 100.

Definition january_one : Member :=
  member_of "m8" (Some "2024-01-05") (Some "2024-02-10") monthly 100 100.

Definition january_two : Member :=
  member_of "m9" (Some "2024-01-06") (Some "2024-05-11") monthly 100 100.

End Samples.
Export Samples.

(** ** Vocabulary of the specification *)

Module Spec.

(** The billing product a raw member resolves to: its id is present, not
    empty, and a key of the table. *)
Definition resolved_product (member : RawMember)
  (billing_products : option (gmap string BillingProduct))
  : option BillingProduct :=
  match billing_products, billingProductId member with
  | Some table, Some (String c k) => table !! String c k
  | _, _ => None
  end.

Definition interval_of (bp : BillingProduct) : py_value :=
  match bp_interval bp with Some v => v | None => VStr "unknown" end.

Definition raw_price_of (bp : BillingProduct) : py_value :=
  match bp_price bp with Some v => v | None => VInt 0 end.

Definition interval_in (bp : BillingProduct) (names : list string) : Prop :=
  exists s, interval_of bp = VStr s /\ In s names.




(** active at the start of the window and with no exit up to [hi] *)
Definition stays_through (lo hi : date) (m : Member) : Prop :=
  truthy (joined_at m) = true
  /\ exists j,
       strptime_date (str_of (joined_at m)) = Ok j
       /\ date_leb j lo = true
       /\ (truthy (exited_at m) = false
           \/ exists e,
                strptime_date (str_of (exited_at m)) = Ok e
                /\ date_ltb lo e = true /\ date_leb e hi = false).

(** the join month of a member whose [joined_at] parses *)
Definition cohort_key (m : Member) : option ym :=
  if truthy (joined_at m) then
    match strptime_ymd (str_of (joined_at m)) with
    | Ok x => Some (ym_of x)
    | Raise _ => None
    end
  else None.

Definition in_cohort (k : ym) (m : Member) : bool :=
  match cohort_key m with
  | Some k' => ym_eqb k k'
  | None => false
  end.

(** the members who joined in month [k], in the order of the input *)
Definition cohort_of (k : ym) (members : list Member) : list Member :=
  List.filter (in_cohort k) members.


(** first entry of an insertion-ordered dictionary under a key *)
Fixpoint lookup_cohort (k : ym) (cohorts : list (ym * list Member))
  : option (list Member) :=
  match cohorts with
  | [] => None
  | (k', l) :: rest => if ym_eqb k k' then Some l else lookup_cohort k rest
  end.

(** a date key that is [None] or a string in the date-only format *)
Definition date_only_field (v : option string) : Prop :=
  match v with
  | None => True
  | Some s => is_ok (strptime_ymd s)
  end.

Definition date_only (m : Member) : Prop :=
  date_only_field (joined_at m) /\ date_only_field (exited_at m).

(** two clock readings on the same calendar day *)
Definition same_day (a b : datetime) : Prop :=
  dt_date a = dt_date b /\ 0 <= dt_tod a /\ 0 <= dt_tod b.

Definition nonempty_opt (l : list Member) : option (list Member) :=
  match l with [] => None | _ :: _ => Some l end.

(** What the grouping loop maintains: the keys are distinct and each key
    holds the members seen so far that joined in that month. *)
Definition grouped (cohorts : list (ym * list Member)) (seen : list Member)
  : Prop :=
  NoDup (map fst cohorts)
  /\ forall k, lookup_cohort k cohorts = nonempty_opt (cohort_of k seen).

End Spec.
Export Spec.

(** ** Rolling 30-day figures (hud2.py) *)

Module Rolling.

(** [calculate_mrr]: the mrr of the members flagged active *)
Definition calculate_mrr (members : list Member) : Q :=
  py_sum (map mrr (List.filter is_active members)).

Definition calculate_mrr_no_annual (members : list Member) : Q :=
  py_sum (map mrr
    (List.filter
       (fun m => is_active m && negb (plan_eqb (plan_type m) annual))
       members)).

(** [days_ago_30 <= strptime(m["exited_at"]).date() <= now] *)
Definition exited_between (days_ago_30 now : date) (m : Member)
  : result bool :=
  try! e := strptime_date (str_of (exited_at m)) in
  Ok (date_leb days_ago_30 e && date_leb e now).

Definition calculate_churn_past_30 (w : World)
  (formatted_members : list Member) : result Z :=
  let now := dt_date (utc_now w) in
  let days_ago_30 := sub_days now 30 in
  try! churned_last_30 :=
    filterM (fun m =>
      and_then (Ok (negb (is_active m)))
      (and_then (Ok (truthy (exited_at m)))
                (exited_between days_ago_30 now m)))
      formatted_members in
  Ok (Z.of_nat (length churned_last_30)).

Definition calculate_churn_past_30_no_annual (w : World)
  (formatted_members : list Member) : result Z :=
  let now := dt_date (utc_now w) in
  let days_ago_30 := sub_days now 30 in
  try! churned_last_30 :=
    filterM (fun m =>
      and_then (Ok (negb (is_active m)))
      (and_then (Ok (truthy (exited_at m)))
      (and_then (Ok (negb (plan_eqb (plan_type m) annual)))
                (exited_between days_ago_30 now m))))
      formatted_members in
  Ok (Z.of_nat (length churned_last_30)).

(** condition of the generator in [count_active_30_days_ago] *)
Definition active_30_cond (days_ago_30 : date) (no_annual : bool)
  (m : Member) : result bool :=
  and_then (Ok (negb no_annual || negb (plan_eqb (plan_type m) annual)))
  (and_then (Ok (truthy (joined_at m)))
  (and_then (try! j := strptime_date (str_of (joined_at m)) in
             Ok (date_leb j days_ago_30))
            (or_else (Ok (negb (truthy (exited_at m))))
                     (try! e := strptime_date (str_of (exited_at m)) in
                      Ok (date_ltb days_ago_30 e))))).

Definition count_active_30_days_ago (w : World)
  (formatted_members : list Member) (no_annual : bool) : result Z :=
  let days_ago_30 := sub_days (dt_date (utc_now w)) 30 in
  try! counted :=
    filterM (active_30_cond days_ago_30 no_annual) formatted_members in
  Ok (Z.of_nat (length counted)).

(** what one member appends to [lifespans], if anything; a date that does
    not parse is passed over by the [except] clause *)
Definition lifespan_of (m : Member) : option Z :=
  if negb (plan_eqb (plan_type m) annual) && negb (is_active m) then
    if truthy (joined_at m) && truthy (exited_at m) then
      match strptime_ymd (str_of (joined_at m)),
            strptime_ymd (str_of (exited_at m)) with
      | Ok j, Ok e =>
          let lifespan_days := ymd2ord (dt_date e) - ymd2ord (dt_date j) in
          if 0 <? lifespan_days then Some lifespan_days else None
      | _, _ => None
      end
    else None
  else None.

Definition sum_Z (xs : list Z) : Z := fold_left Z.add xs 0.

Definition average_lifespan_no_annual (formatted_members : list Member) : Q :=
  let lifespans := omap lifespan_of formatted_members in
  match lifespans with
  | [] => 0%Q
  | _ :: _ =>
      (inject_Z (sum_Z lifespans) / inject_Z (Z.of_nat (length lifespans)))%Q
  end.

(** the dictionary returned by
    [get_monthly_metrics_for_monthly_paying_members] *)
Record MonthlyPaying : Type := mkMonthlyPaying {
  mp_current_members : Z;
  mp_monthly_acquisition : Z;
  mp_monthly_churn_count : Z;
  mp_churn_rate : Q;
  mp_average_price : Q;
  mp_new_members_in_last_30d : Z
}.

(** [m.get("joined_at") and days_ago_30 < strptime(...).date() <= now] *)
Definition joined_in_last_30 (days_ago_30 now : date) (m : Member)
  : result bool :=
  and_then (Ok (truthy (joined_at m)))
           (try! j := strptime_date (str_of (joined_at m)) in
            Ok (date_ltb days_ago_30 j && date_leb j now)).

Definition churned_in_last_30 (days_ago_30 now : date) (m : Member)
  : result bool :=
  and_then (Ok (negb (is_active m)))
  (and_then (Ok (truthy (exited_at m)))
            (try! e := strptime_date (str_of (exited_at m)) in
             Ok (date_ltb days_ago_30 e && date_leb e now))).

Definition was_active_30_days_ago (days_ago_30 : date) (m : Member)
  : result bool :=
  and_then (Ok (truthy (joined_at m)))
  (and_then (try! j := strptime_date (str_of (joined_at m)) in
             Ok (date_leb j days_ago_30))
            (or_else (Ok (negb (truthy (exited_at m))))
                     (try! e := strptime_date (str_of (exited_at m)) in
                      Ok (date_ltb days_ago_30 e)))).

Definition is_monthly_paying (m : Member) : bool :=
  plan_eqb (plan_type m) monthly && negb (Qle_bool (price m) 0).

Definition get_monthly_metrics_for_monthly_paying_members (w : World)
  (members : list Member) : result MonthlyPaying :=
  let now := dt_date (utc_now w) in
  let days_ago_30 := sub_days now 30 in
  let monthly_paying := List.filter is_monthly_paying members in
  let current := List.filter is_active monthly_paying in
  try! monthly_acquisition :=
    filterM (joined_in_last_30 days_ago_30 now) monthly_paying in
  try! monthly_churned :=
    filterM (churned_in_last_30 days_ago_30 now) monthly_paying in
  try! active_30_days_ago :=
    filterM (was_active_30_days_ago days_ago_30) monthly_paying in
  let churn_rate :=
    match active_30_days_ago with
    | [] => 0%Q
    | _ :: _ =>
        (inject_Z (Z.of_nat (length monthly_churned))
         / inject_Z (Z.of_nat (length active_30_days_ago)))%Q
    end in
  let avg_price :=
    match current with
    | [] => 0%Q
    | _ :: _ =>
        (py_sum (map price current)
         / inject_Z (Z.of_nat (length current)))%Q
    end in
  try! new_members_in_last_30d :=
    filterM (joined_in_last_30 days_ago_30 now) members in
  Ok (mkMonthlyPaying
        (Z.of_nat (length current))
        (Z.of_nat (length monthly_acquisition))
        (Z.of_nat (length monthly_churned))
        churn_rate avg_price
        (Z.of_nat (length new_members_in_last_30d))).

End Rolling.
Export Rolling.

(** ** Pie-chart distributions (hud2.py) *)

Module Distributions.

(** The keys of a formatted member beyond those of [Member]. *)
Record MemberView : Type := mkMemberView {
  base : Member;
  community_slug : string;
  active_or_cancelling : string;
  level : py_value;
  months_renewed : py_value
}.

Record Bucket : Type := mkBucket {
  bucket_key : Z;
  bucket_count : Z;
  bucket_percent : Q
}.

(** [isinstance(level, int) and 1 <= level <= 8]; a boolean is an [int],
    and [True] indexes the same entry as [1] *)
Definition level_key (v : py_value) : option Z :=
  match v with
  | VInt z => if (1 <=? z) && (z <=? 8) then Some z else None
  | VBool true => Some 1
  | _ => None
  end.

(** [counts[k] += 1] *)
Definition bump (k : Z) (counts : gmap Z Z) : gmap Z Z :=
  <[k := default 0 (counts !! k) + 1]> counts.

Definition zero_counts (keys : list Z) : gmap Z Z :=
  list_to_map (map (fun k => (k, 0)) keys).

Definition count_step (key_of : py_value -> option Z) (field : MemberView -> py_value)
  (st : gmap Z Z * Z) (m : MemberView) : gmap Z Z * Z :=
  match key_of (field m) with
  | Some k => (bump k st.1, st.2 + 1)
  | None => st
  end.

(** [(count / total * 100) if total else 0.0], then [round(percent, 2)] *)
Definition percent_of (c total : Z) : Q :=
  round2 (if total =? 0 then 0 else inject_Z c / inject_Z total * 100)%Q.

Definition bucket_rows (keys : list Z) (st : gmap Z Z * Z) : list Bucket :=
  map (fun k =>
         let c := default 0 (st.1 !! k) in
         mkBucket k c (percent_of c st.2)) keys.

Definition level_keys : list Z := [1; 2; 3; 4; 5; 6; 7; 8].

Definition get_level_distribution (members : list MemberView) : list Bucket :=
  bucket_rows level_keys
    (fold_left (count_step level_key level) members
               (zero_counts level_keys, 0)).

(** The bucket of a renewal count; the key ["8+"] is written [8].  [None],
    non-integers and negative counts are passed over. *)
Definition renewal_key (v : py_value) : option Z :=
  match v with
  | VInt z => if z <? 0 then None else if 8 <=? z then Some 8 else Some z
  | VBool b => Some (if b then 1 else 0)
  | _ => None
  end.

Definition renewal_keys : list Z := [0; 1; 2; 3; 4; 5; 6; 7; 8].

Definition get_renewal_distribution (members : list MemberView)
  : list Bucket :=
  bucket_rows renewal_keys
    (fold_left (count_step renewal_key months_renewed) members
               (zero_counts renewal_keys, 0)).

Record ActiveCancelling : Type := mkActiveCancelling {
  active_count : Z;
  active_percent : Q;
  cancelling_count : Z;
  cancelling_percent : Q
}.

Definition labelled (label : string) (m : MemberView) : bool :=
  String.eqb (active_or_cancelling m) label.

Definition get_active_and_cancelling_stats (members : list MemberView)
  : ActiveCancelling :=
  let total := Z.of_nat (length members) in
  let n_active := Z.of_nat (length (List.filter (labelled "active") members)) in
  let n_cancelling :=
    Z.of_nat (length (List.filter (labelled "cancelling") members)) in
  mkActiveCancelling n_active (percent_of n_active total)
                     n_cancelling (percent_of n_cancelling total).

(** members whose field falls in bucket [k], and members counted at all *)
Definition has_key (key_of : py_value -> option Z)
  (field : MemberView -> py_value) (k : Z) (m : MemberView) : bool :=
  match key_of (field m) with
  | Some k' => k' =? k
  | None => false
  end.

Definition keyed (key_of : py_value -> option Z)
  (field : MemberView -> py_value) (m : MemberView) : bool :=
  match key_of (field m) with
  | Some _ => true
  | None => false
  end.

End Distributions.
Export Distributions.

(** ** Sample formatted members *)

Module MoreSamples.

Definition view_of (m : Member) (label : string) (lv mr : py_value)
  : MemberView :=
  mkMemberView m "slug" label lv mr.

Definition sample_views : list MemberView :=
  [view_of long_standing "active" (VInt 3) (VInt 4);
   view_of brief_one "cancelling" (VStr "") (VInt 12);
   view_of veteran "active" (VInt 3) VNone;
   view_of brief_two "active" (VInt 9) (VInt (-1))].

End MoreSamples.
Export MoreSamples.

(** ** Further vocabulary *)

Module MoreSpec.

(** the order of the cohort keys *)
Definition ym_lt (a b : ym) : Prop := ym_ltb a b = true.

(** a join date that is present and readable, and an exit date that is
    absent or readable *)
Definition has_join_date (m : Member) : Prop :=
  (exists s, joined_at m = Some s /\ is_ok (strptime_ymd s))
  /\ date_only_field (exited_at m).

(** what the first loop of the monthly series leaves on a member with
    readable dates *)
Definition annotated (m m' : Member) : Prop :=
  (exists s j, joined_at m = Some s /\ strptime_ymd s = Ok j
               /\ joined_dt m' = Some j)
  /\ (forall e, exited_dt m' = Some e ->
        exists s, exited_at m = Some s /\ strptime_ymd s = Ok e)
  /\ (forall s e, exited_at m = Some s -> strptime_ymd s = Ok e ->
        exited_dt m' = Some e).

End MoreSpec.
Export MoreSpec.

(** ** The billing-product table (members.py, [billing_products_to_dict]) *)

Module Billing.

(** An element of the fetched list.  A product is a dictionary or absent
    (also when the key holds null); an id is a string or absent. *)
Record ProductObject : Type := mkProductObject {
  monthlyBillingProduct : option (gmap string py_value);
  monthlyBpId : option string;
  annualBillingProduct : option (gmap string py_value);
  annualBpId : option string;
  oneTimeBillingProduct : option (gmap string py_value);
  oneTimeBpId : option string
}.

(** the entry written for a product:
    [{"interval": p.get("recurringInterval", p.get("recurring_interval", d)),
      "price": p.get("amount")}] *)
Definition product_entry (default_interval : string)
  (product : gmap string py_value) : BillingProduct :=
  mkBillingProduct
    (Some (match product !! "recurringInterval"%string with
           | Some v => v
           | None =>
               match product !! "recurring_interval"%string with
               | Some v => v
               | None => VStr default_interval
               end
           end))
    (Some (match product !! "amount"%string with
           | Some v => v
           | None => VNone
           end)).

(** [if product and product_id: result[product_id] = ...]; an empty
    dictionary and an empty id are falsy *)
Definition add_product (default_interval : string)
  (product : option (gmap string py_value)) (product_id : option string)
  (result : gmap string BillingProduct) : gmap string BillingProduct :=
  match product with
  | Some p =>
      if negb (bool_decide (p = ∅)) && truthy product_id
      then <[str_of product_id := product_entry default_interval p]> result
      else result
  | None => result
  end.

(** the body of the loop: monthly, then annual, then one-time *)
Definition add_object (result : gmap string BillingProduct)
  (obj : ProductObject) : gmap string BillingProduct :=
  add_product "one_time" (oneTimeBillingProduct obj) (oneTimeBpId obj)
    (add_product "year" (annualBillingProduct obj) (annualBpId obj)
       (add_product "month" (monthlyBillingProduct obj) (monthlyBpId obj)
          result)).

Definition billing_products_to_dict (billing_products : list ProductObject)
  : gmap string BillingProduct :=
  fold_left add_object billing_products ∅.

End Billing.
Export Billing.

(** ** Reading the billing-product table *)

Module BillingSpec.

(** one of the three [if product and product_id] blocks writes [bp] under
    [k] *)
Definition slot_writes (d : string) (product : option (gmap string py_value))
  (product_id : option string) (k : string) (bp : BillingProduct) : Prop :=
  exists p, product = Some p /\ p <> ∅ /\ product_id = Some k
            /\ k <> EmptyString /\ bp = product_entry d p.

Definition object_writes (obj : ProductObject) (k : string)
  (bp : BillingProduct) : Prop :=
  slot_writes "month" (monthlyBillingProduct obj) (monthlyBpId obj) k bp
  \/ slot_writes "year" (annualBillingProduct obj) (annualBpId obj) k bp
  \/ slot_writes "one_time" (oneTimeBillingProduct obj) (oneTimeBpId obj)
       k bp.

(** none of the three ids of the object is [k] *)
Definition leaves_alone (k : string) (obj : ProductObject) : Prop :=
  monthlyBpId obj <> Some k /\ annualBpId obj <> Some k
  /\ oneTimeBpId obj <> Some k.

(** a community with a monthly product of 29 and an annual one of 290, both
    without an interval key, followed by one with a single payment *)
Definition plain_product (amount : Z) : gmap string py_value :=
  <["amount"%string := VInt amount]> ∅.

Definition sample_objects : list ProductObject :=
  [ mkProductObject (Some (plain_product 29)) (Some "bp_m"%string)
      (Some (plain_product 290)) (Some "bp_y"%string) None None;
    mkProductObject None None None (Some "bp_none"%string)
      (Some (plain_product 99)) (Some "bp_once"%string) ].

End BillingSpec.
Export BillingSpec.

(** * Properties *)

(** ** Calendar and parser examples *)

Example strptime_ymd_ex1 :
  strptime_ymd "2024-02-29" = Ok (midnight (mkdate 2024 2 29)).
Proof. reflexivity. Qed.

Example strptime_ymd_ex2 : strptime_ymd "2023-02-29" = Raise ValueError.
Proof. reflexivity. Qed.

Example strptime_ymd_ex3 : strptime_ymd "not a date" = Raise ValueError.
Proof. reflexivity. Qed.

Example sub_days_ex1 :
  sub_days (mkdate 2024 3 15) 30 = mkdate 2024 2 14.
Proof. reflexivity. Qed.

Example sub_days_ex2 :
  sub_days (mkdate 2024 1 10) 30 = mkdate 2023 12 11.
Proof. reflexivity. Qed.

Example add_months_ex1 :
  add_months (mkdate 2023 11 1) 3 = mkdate 2024 2 1.
Proof. reflexivity. Qed.


(** ** Member normalizer *)

Section NormalizerFacts.

Variable float_of_str : string -> result Q.

Lemma get_plan_unresolved member products :
  resolved_product member products = None ->
  get_plan_type_price_and_mrr float_of_str member products
  = (unknown, 0%Q, 0%Q).
Proof.
  unfold resolved_product, get_plan_type_price_and_mrr.
  destruct products as [table|]; [|reflexivity].
  destruct (billingProductId member) as [[|c k]|]; simpl; try reflexivity.
  intros ->. destruct (negb _); reflexivity.
Qed.

Lemma get_plan_resolved member products bp :
  resolved_product member products = Some bp ->
  get_plan_type_price_and_mrr float_of_str member products
  = (let plan := plan_of_interval (interval_of bp) in
     let price := match py_float float_of_str (raw_price_of bp) with
                  | Ok x => x
                  | Raise _ => 0%Q
                  end in
     (plan, price,
      match plan with
      | annual => (price / 12)%Q
      | monthly => price
      | _ => 0%Q
      end)).
Proof.
  unfold resolved_product, get_plan_type_price_and_mrr.
  destruct products as [table|]; [|discriminate].
  destruct (billingProductId member) as [[|c k]|]; simpl; try discriminate.
  intros Hl.
  assert (Hne : bool_decide (table = ∅) = false).
  { apply bool_decide_eq_false. intros ->. rewrite lookup_empty in Hl.
    discriminate. }
  rewrite Hne, Hl. reflexivity.
Qed.

Lemma plan_of_interval_cases (v : py_value) :
  (v = VStr "year" \/ v = VStr "annual") /\ plan_of_interval v = annual
  \/ (v = VStr "month" \/ v = VStr "monthly") /\ plan_of_interval v = monthly
  \/ (v = VStr "one_time" \/ v = VStr "one-time")
     /\ plan_of_interval v = one_time
  \/ (forall s, In s ["year"; "annual"; "month"; "monthly";
                      "one_time"; "one-time"]%string -> v <> VStr s)
     /\ plan_of_interval v = unknown.
Proof.
  destruct v as [| b | z | q | s |];
    try (right; right; right; split; [intros ? ? ?; discriminate | reflexivity]).
  unfold plan_of_interval.
  destruct (String.eqb_spec s "year") as [->|H1]; [left; auto|].
  destruct (String.eqb_spec s "annual") as [->|H2]; [left; auto|].
  destruct (String.eqb_spec s "month") as [->|H3]; [right; left; auto|].
  destruct (String.eqb_spec s "monthly") as [->|H4]; [right; left; auto|].
  destruct (String.eqb_spec s "one_time") as [->|H5];
    [right; right; left; auto|].
  destruct (String.eqb_spec s "one-time") as [->|H6];
    [right; right; left; auto|].
  right; right; right. split; [|reflexivity].
  intros t Ht Heq. injection Heq as ->.
  simpl in Ht. intuition congruence.
Qed.

Local Ltac other_interval Hv :=
  let s := fresh "s" in
  let Hs := fresh "Hs" in
  let Hin := fresh "Hin" in
  intros (s & Hs & Hin); exfalso;
  destruct Hv as [Hv|Hv]; rewrite Hv in Hs; injection Hs as <-;
  simpl in Hin; intuition discriminate.

Local Ltac listed_interval Hv :=
  let Hno := fresh "Hno" in
  intros Hno; exfalso; apply Hno;
  destruct Hv as [Hv|Hv]; eexists; (split; [exact Hv|simpl; auto 10]).

Local Ltac unlisted_interval Hv :=
  let s := fresh "s" in
  let Hs := fresh "Hs" in
  let Hin := fresh "Hin" in
  intros (s & Hs & Hin); exfalso; apply (Hv s); [|exact Hs];
  simpl in Hin |- *; intuition.

(** C1. The plan type, price and monthly revenue written into a Member follow
    the interval of the billing product its id resolves to: year/annual give
    annual with mrr = price/12, month/monthly give monthly with mrr = price,
    one_time/one-time give one_time with mrr = 0, any other interval gives
    unknown with mrr = 0; a missing id or one absent from the table gives
    unknown, price 0 and mrr 0. *)
Theorem plan_price_mrr_by_interval member products plan price mrr :
  get_plan_type_price_and_mrr float_of_str member products
  = (plan, price, mrr) ->
  match resolved_product member products with
  | Some bp =>
      (interval_in bp ["year"; "annual"]%string ->
       plan = annual /\ mrr = (price / 12)%Q)
      /\ (interval_in bp ["month"; "monthly"]%string ->
          plan = monthly /\ mrr = price)
      /\ (interval_in bp ["one_time"; "one-time"]%string ->
          plan = one_time /\ mrr = 0%Q)
      /\ (~ interval_in bp ["year"; "annual"; "month"; "monthly";
                            "one_time"; "one-time"]%string ->
          plan = unknown /\ mrr = 0%Q)
  | None => plan = unknown /\ price = 0%Q /\ mrr = 0%Q
  end.
Proof.
  intros Hrun.
  destruct (resolved_product member products) as [bp|] eqn:Hres.
  - rewrite (get_plan_resolved _ _ _ Hres) in Hrun. cbv zeta in Hrun.
    injection Hrun as Hplan Hprice Hmrr.
    subst price. rewrite Hplan in Hmrr.
    unfold interval_in.
    destruct (plan_of_interval_cases (interval_of bp))
      as [[Hv Hp]|[[Hv Hp]|[[Hv Hp]|[Hv Hp]]]];
      rewrite Hp in Hplan; subst plan; simpl in Hmrr; subst mrr.
    + split; [intros _; split; reflexivity|].
      split; [other_interval Hv|]. split; [other_interval Hv|].
      listed_interval Hv.
    + split; [other_interval Hv|].
      split; [intros _; split; reflexivity|]. split; [other_interval Hv|].
      listed_interval Hv.
    + split; [other_interval Hv|]. split; [other_interval Hv|].
      split; [intros _; split; reflexivity|].
      listed_interval Hv.
    + split; [unlisted_interval Hv|]. split; [unlisted_interval Hv|].
      split; [unlisted_interval Hv|]. intros _; split; reflexivity.
  - rewrite (get_plan_unresolved _ _ Hres) in Hrun.
    injection Hrun as <- <- <-. auto.
Qed.

(** C10. When the id resolves to a product whose price cannot be read as a
    number, the plan type resolved from the interval is kept while price and
    mrr are both zero. *)
Theorem unparseable_price_keeps_plan member products bp e :
  resolved_product member products = Some bp ->
  py_float float_of_str (raw_price_of bp) = Raise e ->
  exists mrr,
    get_plan_type_price_and_mrr float_of_str member products
    = (plan_of_interval (interval_of bp), 0%Q, mrr)
    /\ (mrr == 0)%Q.
Proof.
  intros Hres Hprice.
  rewrite (get_plan_resolved _ _ _ Hres). cbv zeta. rewrite Hprice.
  eexists; split; [reflexivity|].
  destruct (plan_of_interval (interval_of bp)); reflexivity.
Qed.

End NormalizerFacts.

Definition example_products : gmap string BillingProduct :=
  <["bp_year" := mkBillingProduct (Some (VStr "year")) (Some (VInt 1200))]>
  (<["bp_broken" := mkBillingProduct (Some (VStr "year")) (Some VNone)]>
  (<["bp_month" := mkBillingProduct (Some (VStr "month")) (Some (VStr "abc"))]>
   ∅)).

Lemma plan_price_mrr_by_interval_witness :
  match resolved_product (mkRawMember (Some "bp_year"%string) VNone VNone)
          (Some example_products) with
  | Some bp =>
      (interval_in bp ["year"; "annual"]%string ->
       annual = annual /\ (1200 / 12)%Q = (1200 / 12)%Q)
      /\ (interval_in bp ["month"; "monthly"]%string ->
          annual = monthly /\ (1200 / 12)%Q = 1200%Q)
      /\ (interval_in bp ["one_time"; "one-time"]%string ->
          annual = one_time /\ (1200 / 12)%Q = 0%Q)
      /\ (~ interval_in bp ["year"; "annual"; "month"; "monthly";
                            "one_time"; "one-time"]%string ->
          annual = unknown /\ (1200 / 12)%Q = 0%Q)
  | None => annual = unknown /\ 1200%Q = 0%Q /\ (1200 / 12)%Q = 0%Q
  end.
Proof.
  apply (plan_price_mrr_by_interval float_of_digits
           (mkRawMember (Some "bp_year"%string) VNone VNone)
           (Some example_products) annual 1200%Q (1200 / 12)%Q).
  reflexivity.
Defined.

Lemma unparseable_price_keeps_plan_witness :
  exists mrr,
    get_plan_type_price_and_mrr float_of_digits
      (mkRawMember (Some "bp_broken"%string) VNone VNone)
      (Some example_products)
    = (annual, 0%Q, mrr) /\ (mrr == 0)%Q.
Proof.
  apply (unparseable_price_keeps_plan float_of_digits
           (mkRawMember (Some "bp_broken"%string) VNone VNone)
           (Some example_products)
           (mkBillingProduct (Some (VStr "year")) (Some VNone)) TypeError).
  - reflexivity.
  - reflexivity.
Defined.

Example monthly_with_unreadable_price :
  get_plan_type_price_and_mrr float_of_digits
    (mkRawMember (Some "bp_month"%string) VNone VNone)
    (Some example_products)
  = (monthly, 0%Q, 0%Q).
Proof. reflexivity. Qed.

Example unresolved_id_is_unknown :
  get_plan_type_price_and_mrr float_of_digits
    (mkRawMember (Some "bp_gone"%string) VNone VNone)
    (Some example_products)
  = (unknown, 0%Q, 0%Q).
Proof. reflexivity. Qed.

(** ** Growth ceiling projector *)

Section GrowthFacts.

Local Open Scope R_scope.

Lemma py_div_ok (a b : R) : b <> 0 -> py_div a b = Ok (a / b).
Proof. intros Hb. unfold py_div. destruct (Req_dec_T b 0); [contradiction|reflexivity]. Qed.

Lemma py_log_ok (x : R) : 0 < x -> py_log x = Ok (ln x).
Proof. intros Hx. unfold py_log. destruct (Rle_dec x 0); [lra|reflexivity]. Qed.

Lemma ln_pos (x : R) : 1 < x -> 0 < ln x.
Proof. intros Hx. rewrite <- ln_1. apply ln_increasing; lra. Qed.

(** The closure never raises: every division and the logarithm are guarded. *)
Lemma time_to_pct_ceiling_total ceiling current_members churn_rate pct :
  churn_rate <> 0 ->
  exists t, time_to_pct_ceiling ceiling current_members churn_rate pct = Ok t.
Proof.
  intros Hc. unfold time_to_pct_ceiling.
  destruct (Req_dec_T ceiling 0); [eauto|].
  destruct (Rge_dec (IZR current_members) ceiling) as [Hge|Hlt]; [eauto|].
  rewrite py_div_ok by lra. simpl.
  destruct (Rle_dec _ 0) as [Hr|Hr]; [eauto|].
  rewrite py_log_ok by lra. simpl.
  rewrite py_div_ok by assumption. eauto.
Qed.

Lemma calculate_growth_metrics_total current_members monthly_acquisition
  monthly_churn_count churn_rate average_price pct_growth pct_member :
  exists g,
    calculate_growth_metrics current_members monthly_acquisition
      monthly_churn_count churn_rate average_price pct_growth pct_member
    = Ok g.
Proof.
  unfold calculate_growth_metrics.
  destruct (Req_dec_T churn_rate 0) as [Hz|Hnz]; [eauto|].
  rewrite py_div_ok by assumption. simpl.
  destruct (Rgt_dec (IZR current_members) 0) as [Hp|Hp].
  - rewrite py_div_ok by lra. simpl.
    destruct (time_to_pct_ceiling_total (monthly_acquisition / churn_rate)
                current_members churn_rate pct_growth Hnz) as [t1 ->].
    destruct (time_to_pct_ceiling_total (monthly_acquisition / churn_rate)
                current_members churn_rate pct_member Hnz) as [t2 ->].
    simpl. eauto.
  - simpl.
    destruct (time_to_pct_ceiling_total (monthly_acquisition / churn_rate)
                current_members churn_rate pct_growth Hnz) as [t1 ->].
    destruct (time_to_pct_ceiling_total (monthly_acquisition / churn_rate)
                current_members churn_rate pct_member Hnz) as [t2 ->].
    simpl. eauto.
Qed.

(** C4. With a zero churn rate the projector returns every ceiling and
    time-to-ceiling field as null, and it returns: no division is reached. *)
Theorem zero_churn_gives_null_projection current_members monthly_acquisition
  monthly_churn_count churn_rate average_price pct_growth pct_member :
  churn_rate = 0 ->
  calculate_growth_metrics current_members monthly_acquisition
    monthly_churn_count churn_rate average_price pct_growth pct_member
  = Ok (mkGrowth None 0 None None None None None).
Proof.
  intros Hz. unfold calculate_growth_metrics.
  destruct (Req_dec_T churn_rate 0); [reflexivity|contradiction].
Qed.

(** Between the target and the ceiling the closure takes neither of its two
    early returns and yields a negative time. *)
Lemma time_to_pct_ceiling_negative ceiling current_members churn_rate pct :
  0 < churn_rate -> pct < 1 ->
  pct * ceiling < IZR current_members -> IZR current_members < ceiling ->
  exists t,
    time_to_pct_ceiling ceiling current_members churn_rate pct = Ok t
    /\ t = - ln ((ceiling - pct * ceiling) / (ceiling - IZR current_members))
            / churn_rate
    /\ t < 0.
Proof.
  intros Hc Hpct Hlo Hhi.
  assert (Hpos : 0 < ceiling) by nra.
  assert (Hden : 0 < ceiling - IZR current_members) by lra.
  assert (Hratio : 1 < (ceiling - pct * ceiling)
                       / (ceiling - IZR current_members)).
  { apply Rmult_lt_reg_r with (ceiling - IZR current_members); [lra|].
    unfold Rdiv. rewrite Rmult_assoc, Rinv_l by lra. lra. }
  unfold time_to_pct_ceiling.
  destruct (Req_dec_T ceiling 0); [lra|].
  destruct (Rge_dec (IZR current_members) ceiling); [lra|].
  rewrite py_div_ok by lra. simpl.
  destruct (Rle_dec _ 0); [lra|].
  rewrite py_log_ok by lra. simpl.
  rewrite py_div_ok by lra.
  eexists; split; [reflexivity|]. split; [reflexivity|].
  pose proof (ln_pos _ Hratio) as Hln.
  unfold Rdiv at 1.
  assert (0 < / churn_rate) by (apply Rinv_0_lt_compat; lra).
  nra.
Qed.

End GrowthFacts.

Lemma zero_churn_gives_null_projection_witness :
  calculate_growth_metrics 120 10 0 0 2900 (95 / 100) (99 / 100)
  = Ok (mkGrowth None 0 None None None None None).
Proof.
  apply (zero_churn_gives_null_projection 120 10 0 0 2900
           (95 / 100) (99 / 100))%R.
  reflexivity.
Defined.

(** C5. The reported times to the ceiling are meant never to be negative.
    With 97 current members, 10 acquisitions a month and a churn rate of 0.1
    the ceiling is 100 and the 95% target is already met, yet the projector
    returns a negative number of months and of days. *)
Theorem time_to_growth_ceiling_negative_past_target :
  exists g t d,
    calculate_growth_metrics 97 10 2 (1 / 10) 2900 (95 / 100) (99 / 100)
    = Ok g
    /\ months_to_growth_ceiling g = Some t
    /\ days_to_growth_ceiling g = Some d
    /\ (95 / 100 * (10 / (1 / 10)) <= IZR 97)%R
    /\ (t < 0)%R /\ (d < 0)%R.
Proof.
  unfold calculate_growth_metrics.
  destruct (Req_dec_T (1 / 10) 0) as [Habs|_]; [lra|].
  rewrite py_div_ok by lra. simpl.
  destruct (Rgt_dec (IZR 97) 0) as [_|Habs]; [|lra].
  rewrite py_div_ok by lra. simpl.
  destruct (time_to_pct_ceiling_negative (10 / (1 / 10)) 97 (1 / 10)
              (95 / 100)) as (t & Ht & _ & Hneg); try lra.
  destruct (time_to_pct_ceiling_total (10 / (1 / 10)) 97 (1 / 10)
              (99 / 100)) as [t' Ht']; [lra|].
  rewrite Ht. simpl. rewrite Ht'. simpl.
  eexists; exists t; eexists.
  split; [reflexivity|]. simpl.
  split; [reflexivity|]. split; [reflexivity|].
  split; [lra|]. split; [exact Hneg|lra].
Qed.

(** ** List comprehensions *)

Section FilterFacts.

Context {A : Type}.
Implicit Types (p : A -> result bool) (l : list A).

Lemma filterM_total p l :
  (forall x, In x l -> is_ok (p x)) -> exists r, filterM p l = Ok r.
Proof.
  induction l as [|x l IH]; intros Hok; simpl; [eauto|].
  destruct (p x) as [b|e] eqn:Hx.
  - destruct IH as [r ->]; [intros y Hy; apply Hok; right; exact Hy|].
    simpl. eauto.
  - specialize (Hok x (or_introl eq_refl)). rewrite Hx in Hok. destruct Hok.
Qed.


Lemma filterM_app p l1 l2 :
  filterM p (l1 ++ l2)
  = (try! a := filterM p l1 in try! b := filterM p l2 in Ok (a ++ b)).
Proof.
  induction l1 as [|x l1 IH]; simpl.
  - destruct (filterM p l2); reflexivity.
  - destruct (p x) as [b|e]; simpl; [|reflexivity].
    rewrite IH. destruct (filterM p l1) as [a|e]; simpl; [|reflexivity].
    destruct (filterM p l2) as [c|e]; simpl; [|reflexivity].
    destruct b; reflexivity.
Qed.

Lemma filterM_ext p q l :
  (forall x, In x l -> p x = q x) -> filterM p l = filterM q l.
Proof.
  induction l as [|x l IH]; intros H; simpl; [reflexivity|].
  rewrite (H x (or_introl eq_refl)), IH; [reflexivity|].
  intros y Hy. apply H. right. exact Hy.
Qed.

End FilterFacts.

(** ** Churn rate *)

Section ChurnFacts.



Lemma rate_percent_antitone c s :
  (0 < s)%nat -> (rate_percent c (S s) <= rate_percent c s)%Q.
Proof.
  intros H. destruct s as [|n]; [lia|]. simpl.
  unfold Qle, Qdiv, Qmult, Qinv. simpl. nia.
Qed.







Lemma stays_through_starting lo hi na m :
  stays_through lo hi m ->
  starting_cond lo na m
  = Ok (negb na || negb (plan_eqb (plan_type m) annual)).
Proof.
  intros (Ht & j & Hj & Hle & Hex).
  unfold starting_cond, and_then, or_else. simpl. rewrite Ht, Hj. simpl.
  rewrite Hle. destruct Hex as [Hf|(e & He & Hlt & _)].
  - rewrite Hf. reflexivity.
  - rewrite He. simpl. rewrite Hlt.
    destruct (truthy (exited_at m)); reflexivity.
Qed.

Lemma stays_through_not_churned lo hi na m :
  stays_through lo hi m -> churned_cond lo hi na m = Ok false.
Proof.
  intros (_ & _ & _ & _ & Hex).
  unfold churned_cond, and_then. simpl.
  destruct Hex as [Hf|(e & He & _ & Hhi)].
  - rewrite Hf. reflexivity.
  - rewrite He. simpl. rewrite Hhi, andb_false_r.
    destruct (truthy (exited_at m)); reflexivity.
Qed.

Lemma filterM_insert {A : Type} (p : A -> result bool) l1 l2 x b r :
  p x = Ok b ->
  filterM p (l1 ++ l2) = Ok r ->
  exists r',
    filterM p (l1 ++ x :: l2) = Ok r'
    /\ length r' = if b then S (length r) else length r.
Proof.
  intros Hx. rewrite !filterM_app. simpl. rewrite Hx. simpl.
  destruct (filterM p l1) as [a|]; simpl; [|discriminate].
  destruct (filterM p l2) as [c|]; simpl; [|discriminate].
  intros H. injection H as <-.
  eexists; split; [reflexivity|].
  destruct b; rewrite !length_app; simpl; lia.
Qed.


(** C9, as the code has it.  Adding a member who was active at the start of
    the window and has no exit up to now does not raise the churn rate, as
    long as the list already had a member active at the start of the
    window. *)
Theorem churn_rate_monotone w l1 l2 m na r :
  stays_through (window_start w) (dt_date (utc_now w)) m ->
  churn_count_past_30 w (l1 ++ l2) na = Ok r ->
  starting w na (l1 ++ l2) <> Ok [] ->
  exists r',
    churn_count_past_30 w (l1 ++ m :: l2) na = Ok r' /\ (r' <= r)%Q.
Proof.
  intros Hm Hrun Hne. unfold churn_count_past_30, starting, churned in *.
  destruct (filterM (starting_cond (window_start w) na) (l1 ++ l2))
    as [s|] eqn:Hs; simpl in Hrun; [|discriminate].
  destruct (filterM (churned_cond (window_start w) (dt_date (utc_now w)) na)
              (l1 ++ l2)) as [c|] eqn:Hc; simpl in Hrun; [|discriminate].
  injection Hrun as <-.
  destruct (filterM_insert _ l1 l2 m _ s
              (stays_through_starting _ _ na m Hm) Hs) as (s' & Hs' & Hls).
  destruct (filterM_insert _ l1 l2 m _ c
              (stays_through_not_churned _ _ na m Hm) Hc) as (c' & Hc' & Hlc).
  rewrite Hs', Hc'. simpl. eexists; split; [reflexivity|].
  rewrite Hlc.
  destruct (negb na || negb (plan_eqb (plan_type m) annual)).
  - rewrite Hls. apply rate_percent_antitone.
    destruct s as [|x s0]; [congruence|simpl; lia].
  - rewrite Hls. apply Qle_refl.
Qed.

End ChurnFacts.



(** C9 as stated fails: the list has a churn event and nobody active at
    the start of the window, so its rate is 0 by the empty-denominator rule;
    adding an unaffected long-standing member makes it 100. *)
Lemma churn_rate_rises_from_empty_start :
  exists r r',
    churn_count_past_30 may20 [brief_one] false = Ok r
    /\ churn_count_past_30 may20 ([brief_one] ++ [long_standing]) false
       = Ok r'
    /\ stays_through (window_start may20) (dt_date (utc_now may20))
                     long_standing
    /\ ~ (r' <= r)%Q.
Proof.
  exists 0%Q, 100%Q. split; [reflexivity|]. split; [reflexivity|]. split.
  - split; [reflexivity|]. eexists. split; [reflexivity|].
    split; [reflexivity|]. left. reflexivity.
  - intros H. unfold Qle in H. simpl in H. lia.
Qed.

Lemma churn_rate_monotone_witness :
  exists r',
    churn_count_past_30 may20 ([long_standing; brief_one] ++ veteran :: [])
      false = Ok r'
    /\ (r' <= 100)%Q.
Proof.
  apply (churn_rate_monotone may20 [long_standing; brief_one] [] veteran
           false 100%Q).
  - split; [reflexivity|]. eexists. split; [reflexivity|].
    split; [reflexivity|]. left. reflexivity.
  - reflexivity.
  - intros H. discriminate H.
Defined.

(** ** Year-to-date revenue *)

Section RevenueFacts.

Lemma total_from_app now acc l1 l2 :
  total_from now acc (l1 ++ l2)
  = (try! t := total_from now acc l1 in total_from now t l2).
Proof.
  revert acc. induction l1 as [|m l1 IH]; intros acc; simpl; [reflexivity|].
  destruct (member_revenue now m); simpl; [apply IH|reflexivity].
Qed.

(** An annual member active at some point of the year adds its price, and
    adds it once: the loop moves on to the next member. *)
Lemma annual_member_revenue now m j :
  plan_type m = annual ->
  truthy (joined_at m) = true ->
  strptime_date (str_of (joined_at m)) = Ok j ->
  date_leb j now = true ->
  (truthy (exited_at m) = false
   \/ exists e, strptime_date (str_of (exited_at m)) = Ok e
                /\ date_leb (mkdate (year now) 1 1) e = true) ->
  member_revenue now m = Ok (price m).
Proof.
  intros Hp Ht Hj Hle Hex. unfold member_revenue.
  rewrite Ht, Hj. simpl. rewrite Hp. simpl.
  destruct Hex as [Hf|(e & He & Hge)].
  - rewrite Hf. simpl. rewrite Hle. reflexivity.
  - rewrite He. destruct (truthy (exited_at m)); simpl;
      rewrite Hle, ?Hge; reflexivity.
Qed.

(** A member on another plan with a zero mrr adds nothing. *)
Lemma zero_mrr_member_revenue now m :
  plan_type m <> annual -> (mrr m == 0)%Q ->
  is_ok (member_revenue now m) ->
  member_revenue now m = Ok 0%Q.
Proof.
  intros Hp Hz. unfold member_revenue.
  destruct (negb (truthy (joined_at m))); [reflexivity|].
  destruct (strptime_date (str_of (joined_at m))) as [j|];
    simpl; [|intros []].
  destruct (if truthy (exited_at m) then _ else _) as [ex|];
    simpl; [|intros []].
  destruct (plan_type m); try congruence; simpl;
    apply Qeq_bool_iff in Hz; rewrite Hz; reflexivity.
Qed.

(** The four cases of the month counter. *)
Lemma month_count_table now j (exited : option date) :
  let first_of_year := mkdate (year now) 1 1 in
  let start := date_max j first_of_year in
  let end_ := match exited with
              | Some e => if year e =? year now then e else now
              | None => now
              end in
  (year j < year now -> exited = None ->
   month_count now j exited start end_ = Z.max 0 (month now))
  /\ (year j < year now ->
      forall e, exited = Some e -> year e = year now ->
      month_count now j exited start end_ = Z.max 0 (month e))
  /\ (year j = year now ->
      forall e, exited = Some e -> year e = year now ->
      month_count now j exited start end_
      = Z.max 0 (month e - month j + 1))
  /\ (year j = year now -> exited = None ->
      month_count now j exited start end_
      = Z.max 0 (month now - month j + 1)).
Proof.
  cbv zeta. unfold month_count. repeat split.
  - intros Hlt ->. simpl.
    destruct (Z.ltb_spec (year j) (year now)); [|lia].
    destruct (Z.eqb_spec (year j) (year now)); [lia|]. reflexivity.
  - intros Hlt e -> He. rewrite He, Z.eqb_refl. simpl.
    destruct (Z.ltb_spec (year j) (year now)); [|lia].
    destruct (Z.eqb_spec (year j) (year now)); [lia|]. reflexivity.
  - intros Heq e -> He. rewrite He, Z.eqb_refl. simpl.
    destruct (Z.ltb_spec (year j) (year now)); [lia|].
    destruct (Z.eqb_spec (year j) (year now)); [|lia]. reflexivity.
  - intros Heq ->. simpl.
    destruct (Z.ltb_spec (year j) (year now)); [lia|].
    destruct (Z.eqb_spec (year j) (year now)); [|lia]. reflexivity.
Qed.

(** A recurring member who joined by this year adds its mrr times the month
    counter. *)
Lemma recurring_member_revenue now m j (exited : option date) :
  plan_type m <> annual -> ~ (mrr m == 0)%Q ->
  truthy (joined_at m) = true ->
  strptime_date (str_of (joined_at m)) = Ok j ->
  (if truthy (exited_at m)
   then try! e := strptime_date (str_of (exited_at m)) in Ok (Some e)
   else Ok None) = Ok exited ->
  year j <= year now ->
  member_revenue now m
  = Ok (mrr m
        * inject_Z
            (month_count now j exited
               (date_max j (mkdate (year now) 1 1))
               (match exited with
                | Some e => if year e =? year now then e else now
                | None => now
                end)))%Q.
Proof.
  intros Hp Hnz Ht Hj Hex Hy. unfold member_revenue.
  rewrite Ht, Hj. simpl. rewrite Hex. simpl.
  assert (Hplan : plan_eqb (plan_type m) annual = false)
    by (destruct (plan_type m); simpl; congruence).
  rewrite Hplan.
  assert (Hq : Qeq_bool (mrr m) 0 = false).
  { destruct (Qeq_bool (mrr m) 0) eqn:E; [|reflexivity].
    apply Qeq_bool_iff in E. contradiction. }
  rewrite Hq.
  assert (Hend : year (match exited with
                       | Some e => if year e =? year now then e else now
                       | None => now
                       end) = year now).
  { destruct exited as [e|]; [|reflexivity].
    destruct (Z.eqb_spec (year e) (year now)); auto. }
  rewrite Hend, Z.ltb_irrefl.
  assert (Hstart : year (date_max j (mkdate (year now) 1 1)) = year now).
  { unfold date_max, date_ltb. simpl.
    destruct (Z.ltb_spec (year j) (year now)); simpl; [reflexivity|].
    destruct (Z.eqb_spec (year j) (year now)); simpl; [|lia].
    destruct (_ || _); simpl; auto. }
  rewrite Hstart, Z.ltb_irrefl. reflexivity.
Qed.

(** C3.  The total is meant to count members active at some point of the
    current year.  A member on a recurring plan who joined and exited in
    earlier years is not passed over: the end of its span falls back to now,
    the test for an exit before this year never holds, and the member adds
    its mrr times the current month number. *)
Theorem ytd_counts_member_gone_before_this_year w m j e :
  plan_type m <> annual -> ~ (mrr m == 0)%Q ->
  truthy (joined_at m) = true ->
  strptime_date (str_of (joined_at m)) = Ok j ->
  truthy (exited_at m) = true ->
  strptime_date (str_of (exited_at m)) = Ok e ->
  year j < year (dt_date (local_now w)) ->
  year e < year (dt_date (local_now w)) ->
  get_total_rev_ytd_recurring_only w [m]
  = Ok (0 + mrr m * inject_Z (Z.max 0 (month (dt_date (local_now w)))))%Q.
Proof.
  intros Hp Hnz Htj Hj Hte He Hyj Hye.
  unfold get_total_rev_ytd_recurring_only. simpl.
  rewrite (recurring_member_revenue _ m j (Some e)); try assumption; try lia.
  - simpl. do 3 f_equal.
    destruct (Z.eqb_spec (year e) (year (dt_date (local_now w)))); [lia|].
    unfold month_count. simpl.
    destruct (Z.eqb_spec (year e) (year (dt_date (local_now w)))); [lia|].
    destruct (Z.ltb_spec (year j) (year (dt_date (local_now w)))); [|lia].
    reflexivity.
  - rewrite Hte, He. reflexivity.
Qed.

End RevenueFacts.

Lemma ytd_counts_member_gone_before_this_year_witness :
  get_total_rev_ytd_recurring_only may20 [left_last_year]
  = Ok (0 + 100 * inject_Z (Z.max 0 5))%Q.
Proof.
  apply (ytd_counts_member_gone_before_this_year may20 left_last_year
           (mkdate 2022 3 10) (mkdate 2023 6 15)).
  - discriminate.
  - intros H. discriminate H.
  - reflexivity.
  - reflexivity.
  - reflexivity.
  - reflexivity.
  - reflexivity.
  - reflexivity.
Defined.

(** The example of the specification: one annual member at price 1200. *)
Example ytd_single_annual_member :
  get_total_rev_ytd_recurring_only may20 [annual_all_year] = Ok 1200%Q.
Proof. reflexivity. Qed.

Example ytd_single_lapsed_member :
  get_total_rev_ytd_recurring_only may20 [left_last_year] = Ok 500%Q.
Proof. reflexivity. Qed.

(** ** Cohort retention *)

Section CohortFacts.

Lemma ym_eqb_eq (a b : ym) : ym_eqb a b = true <-> a = b.
Proof.
  destruct a as [a1 a2], b as [b1 b2]. unfold ym_eqb. simpl.
  rewrite andb_true_iff, !Z.eqb_eq. split.
  - intros [-> ->]. reflexivity.
  - intros H. injection H as -> ->. auto.
Qed.

Lemma ym_eqb_refl (a : ym) : ym_eqb a a = true.
Proof. apply ym_eqb_eq. reflexivity. Qed.

Lemma ym_eqb_sym (a b : ym) : ym_eqb a b = ym_eqb b a.
Proof.
  destruct (ym_eqb a b) eqn:E1, (ym_eqb b a) eqn:E2; try reflexivity.
  - apply ym_eqb_eq in E1. subst. rewrite ym_eqb_refl in E2. discriminate.
  - apply ym_eqb_eq in E2. subst. rewrite ym_eqb_refl in E1. discriminate.
Qed.

Lemma lookup_cohort_append k m cohorts k' :
  lookup_cohort k' (cohort_append k m cohorts)
  = if ym_eqb k' k
    then Some (match lookup_cohort k cohorts with
               | Some l => l
               | None => []
               end ++ [m])
    else lookup_cohort k' cohorts.
Proof.
  induction cohorts as [|[k0 l0] rest IH]; simpl.
  - destruct (ym_eqb k' k); reflexivity.
  - destruct (ym_eqb k k0) eqn:Ek; simpl.
    + apply ym_eqb_eq in Ek. subst k0.
      destruct (ym_eqb k' k); reflexivity.
    + destruct (ym_eqb k' k0) eqn:Ek'.
      * apply ym_eqb_eq in Ek'. subst k0.
        rewrite ym_eqb_sym, Ek. reflexivity.
      * exact IH.
Qed.

Lemma keys_cohort_append k m cohorts :
  map fst (cohort_append k m cohorts)
  = match lookup_cohort k cohorts with
    | Some _ => map fst cohorts
    | None => map fst cohorts ++ [k]
    end.
Proof.
  induction cohorts as [|[k0 l0] rest IH]; simpl; [reflexivity|].
  destruct (ym_eqb k k0) eqn:Ek; simpl; [reflexivity|].
  rewrite IH. destruct (lookup_cohort k rest); reflexivity.
Qed.

Lemma lookup_cohort_None k cohorts :
  lookup_cohort k cohorts = None -> ~ In k (map fst cohorts).
Proof.
  induction cohorts as [|[k0 l0] rest IH]; simpl; [tauto|].
  destruct (ym_eqb k k0) eqn:Ek; [discriminate|].
  intros H [Heq|Hin]; [|exact (IH H Hin)].
  subst k0. rewrite ym_eqb_refl in Ek. discriminate.
Qed.

Lemma lookup_cohort_In k l cohorts :
  NoDup (map fst cohorts) ->
  (In (k, l) cohorts <-> lookup_cohort k cohorts = Some l).
Proof.
  induction cohorts as [|[k0 l0] rest IH]; simpl; intros Hnd.
  - split; [tauto|discriminate].
  - apply NoDup_cons in Hnd as [Hnot Hnd]. specialize (IH Hnd).
    rewrite list_elem_of_In in Hnot.
    destruct (ym_eqb k k0) eqn:Ek.
    + apply ym_eqb_eq in Ek. subst k0. split.
      * intros [Heq|Hin]; [congruence|].
        exfalso. apply Hnot. apply (in_map fst) in Hin. exact Hin.
      * intros Heq. left. congruence.
    + split.
      * intros [Heq|Hin]; [|apply IH; exact Hin].
        injection Heq as -> ->. rewrite ym_eqb_refl in Ek. discriminate.
      * intros H. right. apply IH. exact H.
Qed.

Lemma cohort_of_snoc k seen m :
  cohort_of k (seen ++ [m])
  = cohort_of k seen ++ (if in_cohort k m then [m] else []).
Proof. unfold cohort_of. rewrite List.filter_app. reflexivity. Qed.

Lemma nonempty_opt_default l :
  match nonempty_opt l with Some x => x | None => [] end = l.
Proof. destruct l; reflexivity. Qed.

Lemma nonempty_opt_snoc l m : nonempty_opt (l ++ [m]) = Some (l ++ [m]).
Proof. destruct l; reflexivity. Qed.

Lemma grouped_step cohorts seen m :
  grouped cohorts seen ->
  grouped (match cohort_key m with
           | Some k => cohort_append k m cohorts
           | None => cohorts
           end) (seen ++ [m]).
Proof.
  intros [Hnd Hl]. unfold grouped.
  destruct (cohort_key m) as [k|] eqn:Hk.
  - split.
    + rewrite keys_cohort_append.
      destruct (lookup_cohort k cohorts) eqn:E; [exact Hnd|].
      apply NoDup_app. split; [exact Hnd|]. split.
      * intros x Hx Hx'. apply list_elem_of_In in Hx, Hx'.
        destruct Hx' as [<-|[]].
        exact (lookup_cohort_None _ _ E Hx).
      * apply NoDup_singleton.
    + intros k'. rewrite lookup_cohort_append, cohort_of_snoc.
      unfold in_cohort. rewrite Hk.
      destruct (ym_eqb k' k) eqn:Ek.
      * apply ym_eqb_eq in Ek. subst k'.
        rewrite Hl, nonempty_opt_default, nonempty_opt_snoc. reflexivity.
      * rewrite app_nil_r. apply Hl.
  - split; [exact Hnd|].
    intros k'. rewrite cohort_of_snoc. unfold in_cohort. rewrite Hk.
    rewrite app_nil_r. apply Hl.
Qed.

Lemma group_members_step m rest cohorts :
  group_members (m :: rest) cohorts
  = group_members rest (match cohort_key m with
                        | Some k => cohort_append k m cohorts
                        | None => cohorts
                        end).
Proof.
  simpl. unfold cohort_key.
  destruct (truthy (joined_at m)); simpl; [|reflexivity].
  destruct (strptime_ymd (str_of (joined_at m))); reflexivity.
Qed.

Lemma group_members_grouped members cohorts seen :
  grouped cohorts seen ->
  grouped (group_members members cohorts) (seen ++ members).
Proof.
  revert cohorts seen.
  induction members as [|m rest IH]; intros cohorts seen Hg.
  - rewrite app_nil_r. exact Hg.
  - rewrite group_members_step.
    replace (seen ++ m :: rest) with ((seen ++ [m]) ++ rest)
      by (rewrite <- app_assoc; reflexivity).
    apply IH, grouped_step, Hg.
Qed.

Lemma group_members_spec members :
  grouped (group_members members []) members.
Proof.
  apply (group_members_grouped members [] []).
  split; [constructor|]. intros k. reflexivity.
Qed.

Lemma insert_sorted_In c l x :
  In x (insert_sorted c l) <-> x = c \/ In x l.
Proof.
  induction l as [|c' rest IH]; simpl.
  - intuition.
  - destruct (ym_ltb c.1 c'.1); simpl; [intuition|].
    rewrite IH. intuition.
Qed.

Lemma sorted_items_In l x : In x (sorted_items l) <-> In x l.
Proof.
  unfold sorted_items. induction l as [|c rest IH]; simpl; [tauto|].
  rewrite insert_sorted_In, IH. intuition.
Qed.

Lemma rows_loop_In today max_months items row :
  In row (rows_loop today max_months items) <->
  exists k l,
    In (k, l) items /\ l <> []
    /\ row = mkRow k (cells_loop today k l (seq 0 max_months)).
Proof.
  induction items as [|[k0 l0] rest IH]; simpl.
  - split; [tauto|]. intros (k & l & [] & _).
  - destruct l0 as [|m0 l0'].
    + rewrite IH. split.
      * intros (k & l & Hin & Hne & ->). eauto 6.
      * intros (k & l & [Heq|Hin] & Hne & ->); [congruence|eauto 6].
    + simpl. rewrite IH. split.
      * intros [<-|(k & l & Hin & Hne & ->)].
        -- exists k0, (m0 :: l0'). split; [auto|]. split; [discriminate|].
           reflexivity.
        -- eauto 6.
      * intros (k & l & [Heq|Hin] & Hne & ->).
        -- injection Heq as -> ->. left. reflexivity.
        -- right. eauto 6.
Qed.

Lemma cells_loop_In today k l ns c :
  In c (cells_loop today k l ns) ->
  exists n,
    In n ns /\ c = cell_at k l n
    /\ dt_ltb today (period_start_of k n) = false.
Proof.
  induction ns as [|n rest IH]; simpl; [tauto|].
  destruct (dt_ltb today (period_start_of k n)) eqn:E; simpl; [tauto|].
  intros [<-|Hin].
  - exists n. auto.
  - destruct (IH Hin) as (n' & Hn' & Hc & Ht). exists n'. auto.
Qed.




Lemma grouped_entry members k l :
  In (k, l) (sorted_items (group_members members [])) ->
  l = cohort_of k members.
Proof.
  intros Hin. apply (proj1 (sorted_items_In _ _)) in Hin.
  destruct (group_members_spec members) as [Hnd Hl].
  apply (proj1 (lookup_cohort_In _ _ _ Hnd)) in Hin. rewrite Hl in Hin.
  destruct (cohort_of k members); simpl in Hin; congruence.
Qed.

(** The test of the retention count, in the terms of the specification:
    joined on or before the start of the period and not exited before its
    end. *)
Lemma still_active_at_spec period_start period_end m j :
  truthy (joined_at m) = true ->
  strptime_ymd (str_of (joined_at m)) = Ok j ->
  (truthy (exited_at m) = false ->
   still_active_at period_start period_end m = dt_leb j period_start)
  /\ (forall e, truthy (exited_at m) = true ->
       strptime_ymd (str_of (exited_at m)) = Ok e ->
       still_active_at period_start period_end m
       = dt_leb j period_start && dt_leb period_end e).
Proof.
  intros Ht Hj. unfold still_active_at, parse_opt. rewrite Ht, Hj. simpl.
  split.
  - intros ->. simpl. rewrite andb_true_r. reflexivity.
  - intros e -> ->. reflexivity.
Qed.

(** Every non-empty cohort has its row. *)
Lemma cohort_table_complete w members max_months m k :
  In m members -> cohort_key m = Some k ->
  exists row,
    In row (generate_cohort_retention_table w members max_months)
    /\ cohort_month row = k.
Proof.
  intros Hin Hk. unfold generate_cohort_retention_table.
  assert (Ht : truthy (joined_at m) = true).
  { unfold cohort_key in Hk. destruct (truthy (joined_at m));
      [reflexivity|discriminate]. }
  destruct (List.filter (fun m0 => truthy (joined_at m0)) members)
    as [|x xs] eqn:Hf.
  { assert (Hm : In m (List.filter (fun m0 => truthy (joined_at m0)) members))
      by (apply List.filter_In; auto).
    rewrite Hf in Hm. destruct Hm. }
  assert (Hc : In m (cohort_of k members)).
  { apply List.filter_In. split; [exact Hin|].
    unfold in_cohort. rewrite Hk. apply ym_eqb_refl. }
  destruct (group_members_spec members) as [Hnd Hl].
  specialize (Hl k).
  destruct (cohort_of k members) as [|y ys] eqn:Hco; [destruct Hc|].
  simpl in Hl. apply (proj2 (lookup_cohort_In _ _ _ Hnd)) in Hl.
  exists (mkRow k (cells_loop (local_now w) k (y :: ys) (seq 0 max_months))).
  split; [|reflexivity].
  apply rows_loop_In. exists k, (y :: ys).
  split; [apply sorted_items_In; exact Hl|]. split; [discriminate|reflexivity].
Qed.


End CohortFacts.



(** ** Monthly time series *)

Section MonthlyFacts.

Variable strptime_ymd_hmsf : string -> result datetime.

Lemma mapM_In {A B : Type} (f : A -> result B) l r x :
  mapM f l = Ok r -> In x l -> exists y, In y r /\ f x = Ok y.
Proof.
  revert r. induction l as [|a l IH]; simpl; intros r Hr Hin; [destruct Hin|].
  destruct (f a) as [b|] eqn:Ha; simpl in Hr; [|discriminate].
  destruct (mapM f l) as [r'|] eqn:Hl; simpl in Hr; [|discriminate].
  injection Hr as <-. destruct Hin as [->|Hin].
  - exists b. split; [left; reflexivity|exact Ha].
  - destruct (IH r' eq_refl Hin) as (y & Hy & Hfy).
    exists y. split; [right; exact Hy|exact Hfy].
Qed.

Lemma mapM_In_inv {A B : Type} (f : A -> result B) l r y :
  mapM f l = Ok r -> In y r -> exists x, In x l /\ f x = Ok y.
Proof.
  revert r. induction l as [|a l IH]; simpl; intros r Hr Hin.
  - injection Hr as <-. destruct Hin.
  - destruct (f a) as [b|] eqn:Ha; simpl in Hr; [|discriminate].
    destruct (mapM f l) as [r'|] eqn:Hl; simpl in Hr; [|discriminate].
    injection Hr as <-. destruct Hin as [<-|Hin].
    + exists a. split; [left; reflexivity|exact Ha].
    + destruct (IH r' eq_refl Hin) as (x & Hx & Hfx).
      exists x. split; [right; exact Hx|exact Hfx].
Qed.

Lemma min_loop_with_None best rest :
  In None rest -> min_loop best rest = Raise TypeError.
Proof.
  revert best. induction rest as [|x rest IH]; intros best Hin;
    [destruct Hin|].
  simpl. destruct x as [a|]; [|reflexivity].
  destruct best as [b|]; [|reflexivity].
  destruct Hin as [Habs|Hin]; [discriminate|]. apply IH, Hin.
Qed.

Lemma py_min_with_None xs :
  In None xs -> py_min xs = Raise TypeError \/ py_min xs = Ok None.
Proof.
  destruct xs as [|x rest]; [intros []|]. simpl.
  intros [->|Hin].
  - destruct rest as [|y rest']; [right; reflexivity|].
    left. simpl. destruct y; reflexivity.
  - left. apply min_loop_with_None, Hin.
Qed.

Lemma annotate_null_join m m' :
  joined_at m = None -> annotate strptime_ymd_hmsf m = Ok m' ->
  joined_dt m' = None.
Proof.
  intros Hj. unfold annotate. rewrite Hj. simpl.
  destruct (parse_date strptime_ymd_hmsf (exited_at m)); simpl;
    [|discriminate].
  intros H. injection H as <-. reflexivity.
Qed.

(** C7.  A member whose join date is null is meant to be carried along
    with that field empty.  The monthly series does not survive it: whatever
    the other members are, the run ends in an exception. *)
Theorem null_join_date_aborts_monthly_series w members community_slug m :
  In m members -> joined_at m = None ->
  exists e,
    calculate_monthly_metrics strptime_ymd_hmsf w members community_slug
    = Raise e.
Proof.
  intros Hin Hnull. unfold calculate_monthly_metrics.
  destruct members as [|m0 rest]; [destruct Hin|].
  unfold annotate_all.
  destruct (mapM (annotate strptime_ymd_hmsf) (m0 :: rest)) as [ms'|e]
    eqn:Hann; simpl; [|eauto].
  destruct (mapM_In _ _ _ m Hann Hin) as (m' & Hm' & Hfm).
  pose proof (annotate_null_join _ _ Hnull Hfm) as Hnone.
  assert (HinNone : In None (map joined_dt ms')).
  { rewrite <- Hnone. apply in_map. exact Hm'. }
  destruct (py_min_with_None _ HinNone) as [-> | ->]; simpl; eauto.
Qed.

End MonthlyFacts.

Lemma null_join_date_aborts_monthly_series_witness :
  exists e,
    calculate_monthly_metrics no_second_format may20
      [never_approved; long_standing] "slug"
    = Raise e.
Proof.
  apply (null_join_date_aborts_monthly_series no_second_format may20
           [never_approved; long_standing] "slug"%string never_approved).
  - left. reflexivity.
  - reflexivity.
Defined.

Example monthly_series_type_error sp :
  calculate_monthly_metrics sp may20 [never_approved; long_standing] "slug"
  = Raise TypeError.
Proof. reflexivity. Qed.

Example monthly_series_attribute_error sp :
  calculate_monthly_metrics sp may20 [never_approved] "slug"
  = Raise AttributeError.
Proof. reflexivity. Qed.

Example monthly_series_without_null_join sp :
  is_ok (calculate_monthly_metrics sp may20 [long_standing; brief_one] "slug").
Proof. exact I. Qed.

(** ** Dependence on the clock *)

Section ClockFacts.

Variable strptime_ymd_hmsf : string -> result datetime.

Lemma date_eqb_eq a b : date_eqb a b = true -> a = b.
Proof.
  destruct a as [y1 m1 d1], b as [y2 m2 d2]. unfold date_eqb. simpl.
  rewrite !andb_true_iff, !Z.eqb_eq. intros [[-> ->] ->]. reflexivity.
Qed.

Lemma dt_ltb_midnight today p :
  0 <= dt_tod today -> dt_tod p = 0 ->
  dt_ltb today p = date_ltb (dt_date today) (dt_date p).
Proof.
  intros Ht Hp. unfold dt_ltb. rewrite Hp.
  destruct (Z.ltb_spec (dt_tod today) 0); [lia|].
  rewrite andb_false_r, orb_false_r. reflexivity.
Qed.

Lemma dt_leb_midnight c e :
  dt_tod c = 0 -> 0 <= dt_tod e ->
  dt_leb c e = date_leb (dt_date c) (dt_date e).
Proof.
  intros Hc He. unfold dt_leb, dt_ltb, dt_eqb, date_leb. rewrite Hc.
  destruct (date_ltb (dt_date c) (dt_date e)),
    (date_eqb (dt_date c) (dt_date e)), (dt_tod e);
    simpl; try reflexivity; lia.
Qed.

Lemma strptime_ymd_midnight s x : strptime_ymd s = Ok x -> dt_tod x = 0.
Proof.
  unfold strptime_ymd. intros H.
  repeat case_match; try discriminate. injection H as <-. reflexivity.
Qed.

Lemma cells_loop_same_day t1 t2 k l ns :
  same_day t1 t2 -> cells_loop t1 k l ns = cells_loop t2 k l ns.
Proof.
  intros (Hd & H1 & H2). induction ns as [|n rest IH]; simpl; [reflexivity|].
  rewrite !dt_ltb_midnight by (assumption || reflexivity).
  rewrite Hd, IH. reflexivity.
Qed.

Lemma rows_loop_same_day t1 t2 max_months items :
  same_day t1 t2 ->
  rows_loop t1 max_months items = rows_loop t2 max_months items.
Proof.
  intros Hs. induction items as [|[k l] rest IH]; simpl; [reflexivity|].
  destruct l; [exact IH|].
  rewrite IH, (cells_loop_same_day t1 t2) by exact Hs. reflexivity.
Qed.

Lemma min_loop_In best rest r :
  min_loop best rest = Ok r -> r = best \/ In r rest.
Proof.
  revert best. induction rest as [|x rest IH]; simpl; intros best H.
  - injection H as <-. left. reflexivity.
  - destruct x as [a|]; [|discriminate].
    destruct best as [b|]; [|discriminate].
    destruct (IH _ H) as [->|Hin]; [|auto].
    destruct (dt_ltb a b); auto.
Qed.

Lemma py_min_In xs r : py_min xs = Ok r -> In r xs.
Proof.
  destruct xs as [|x rest]; simpl; [discriminate|].
  intros H. destruct (min_loop_In _ _ _ H) as [->|Hin]; auto.
Qed.

Lemma max_loop_same_day rest :
  List.Forall (fun x => dt_tod x = 0) rest ->
  forall b1 b2 t1 t2,
    same_day b1 b2 -> same_day t1 t2 ->
    same_day (max_loop b1 (rest ++ [t1])) (max_loop b2 (rest ++ [t2])).
Proof.
  induction 1 as [|x rest Hx Hrest IH]; intros b1 b2 t1 t2 Hb Ht.
  - simpl. destruct Hb as (Hbd & Hb1 & Hb2), Ht as (Htd & Ht1 & Ht2).
    unfold dt_ltb. rewrite Hbd, Htd.
    destruct (date_ltb (dt_date b2) (dt_date t2)); simpl;
      [repeat split; assumption|].
    destruct (date_eqb (dt_date b2) (dt_date t2)) eqn:E; simpl;
      [|repeat split; assumption].
    apply date_eqb_eq in E.
    destruct (dt_tod b1 <? dt_tod t1), (dt_tod b2 <? dt_tod t2);
      repeat split; congruence || assumption.
  - simpl. apply IH; [|exact Ht].
    destruct Hb as (Hbd & Hb1 & Hb2).
    rewrite !dt_ltb_midnight by assumption. rewrite Hbd.
    destruct (date_ltb (dt_date b2) (dt_date x));
      repeat split; (assumption || lia).
Qed.

Lemma month_range_loop_same_day fuel cur e1 e2 :
  dt_tod cur = 0 -> same_day e1 e2 ->
  month_range_loop fuel cur e1 = month_range_loop fuel cur e2.
Proof.
  intros Hc (Hd & H1 & H2). revert cur Hc.
  induction fuel as [|fuel IH]; intros cur Hc; simpl; [reflexivity|].
  rewrite !dt_leb_midnight by assumption. rewrite Hd.
  destruct (date_leb (dt_date cur) (dt_date e2)); [|reflexivity].
  rewrite IH; [reflexivity|]. exact Hc.
Qed.

Lemma month_range_same_day start e1 e2 :
  dt_tod start = 0 -> same_day e1 e2 ->
  month_range start e1 = month_range start e2.
Proof.
  intros Hs Hsd. unfold month_range, month_index.
  destruct Hsd as (Hd & H1 & H2). rewrite Hd.
  apply month_range_loop_same_day; [exact Hs|]. repeat split; assumption.
Qed.

Lemma parse_date_date_only v r x :
  date_only_field v -> parse_date strptime_ymd_hmsf v = Ok r ->
  r = Some x -> dt_tod x = 0.
Proof.
  destruct v as [s|]; simpl; intros Hd Hp ->; [|discriminate].
  destruct (strptime_ymd s) as [y|] eqn:E; [|destruct Hd].
  injection Hp as ->. exact (strptime_ymd_midnight _ _ E).
Qed.

Lemma annotate_date_only m m' :
  date_only m -> annotate strptime_ymd_hmsf m = Ok m' ->
  (forall x, joined_dt m' = Some x -> dt_tod x = 0)
  /\ (forall x, exited_dt m' = Some x -> dt_tod x = 0).
Proof.
  intros [Hj He]. unfold annotate.
  destruct (parse_date strptime_ymd_hmsf (joined_at m)) as [j|] eqn:Ej;
    simpl; [|discriminate].
  destruct (parse_date strptime_ymd_hmsf (exited_at m)) as [e|] eqn:Ee;
    simpl; [|discriminate].
  intros H. injection H as <-. unfold joined_dt, exited_dt. simpl. split.
  - intros x Hx. exact (parse_date_date_only _ _ _ Hj Ej Hx).
  - intros x Hx. exact (parse_date_date_only _ _ _ He Ee Hx).
Qed.

Lemma monthly_same_day w1 w2 members community_slug :
  same_day (local_now w1) (local_now w2) ->
  List.Forall date_only members ->
  calculate_monthly_metrics strptime_ymd_hmsf w1 members community_slug
  = calculate_monthly_metrics strptime_ymd_hmsf w2 members community_slug.
Proof.
  intros Hsd Hdo. unfold calculate_monthly_metrics.
  destruct members as [|m0 rest]; [reflexivity|].
  unfold annotate_all.
  destruct (mapM (annotate strptime_ymd_hmsf) (m0 :: rest)) as [ms'|]
    eqn:Hann; simpl; [|reflexivity].
  assert (Hmid : forall m', In m' ms' ->
            (forall x, joined_dt m' = Some x -> dt_tod x = 0)
            /\ (forall x, exited_dt m' = Some x -> dt_tod x = 0)).
  { intros m' Hm'. destruct (mapM_In_inv _ _ _ _ Hann Hm') as (m & Hm & Hf).
    rewrite List.Forall_forall in Hdo.
    exact (annotate_date_only _ _ (Hdo m Hm) Hf). }
  destruct (py_min (map joined_dt ms')) as [[start|]|] eqn:Hmin; simpl;
    try reflexivity.
  assert (Hstart : dt_tod start = 0).
  { apply py_min_In in Hmin. apply in_map_iff in Hmin as (m' & Hj & Hm').
    exact (proj1 (Hmid m' Hm') _ Hj). }
  assert (Hexits : List.Forall (fun x => dt_tod x = 0) (omap exited_dt ms')).
  { apply List.Forall_forall. intros x Hx. apply list_elem_of_In in Hx.
    apply list_elem_of_omap in Hx as (m' & Hm' & He).
    apply list_elem_of_In in Hm'. exact (proj2 (Hmid m' Hm') _ He). }
  destruct (omap exited_dt ms') as [|e es]; simpl.
  - rewrite (month_range_same_day start _ _ Hstart Hsd). reflexivity.
  - apply List.Forall_cons_iff in Hexits as [He Hes].
    rewrite (month_range_same_day start
               (max_loop e (es ++ [local_now w1]))
               (max_loop e (es ++ [local_now w2])) Hstart); [reflexivity|].
    apply max_loop_same_day; [exact Hes| |exact Hsd].
    repeat split; lia.
Qed.

(** C8, as the code has it.  The calculators take no reference time: each
    reads the clock of the run.  The churn rate depends on the run only
    through the UTC date, the year-to-date revenue and the cohort table only
    through the local date, and so does the monthly series on members whose
    dates are in the date-only format: two runs on the same members on the
    same day give the same output. *)
Theorem outputs_depend_on_clock_date_only w1 w2 members no_annual
  max_months community_slug :
  same_day (utc_now w1) (utc_now w2) ->
  same_day (local_now w1) (local_now w2) ->
  churn_count_past_30 w1 members no_annual
  = churn_count_past_30 w2 members no_annual
  /\ get_total_rev_ytd_recurring_only w1 members
     = get_total_rev_ytd_recurring_only w2 members
  /\ generate_cohort_retention_table w1 members max_months
     = generate_cohort_retention_table w2 members max_months
  /\ (List.Forall date_only members ->
      calculate_monthly_metrics strptime_ymd_hmsf w1 members community_slug
      = calculate_monthly_metrics strptime_ymd_hmsf w2 members
          community_slug).
Proof.
  intros Hu Hl. split; [|split; [|split]].
  - unfold churn_count_past_30, starting, churned, window_start.
    destruct Hu as (-> & _). reflexivity.
  - unfold get_total_rev_ytd_recurring_only.
    destruct Hl as (-> & _). reflexivity.
  - unfold generate_cohort_retention_table.
    rewrite (rows_loop_same_day _ _ _ _ Hl). reflexivity.
  - apply monthly_same_day. exact Hl.
Qed.

(** The first loop writes two keys into the dictionaries it is given; a
    second run on the same dictionaries overwrites them with the same values
    and computes the same rows. *)
Lemma annotate_again m m' :
  annotate strptime_ymd_hmsf m = Ok m' ->
  annotate strptime_ymd_hmsf m' = Ok m'.
Proof.
  unfold annotate.
  destruct (parse_date strptime_ymd_hmsf (joined_at m)) as [j|] eqn:Ej;
    simpl; [|discriminate].
  destruct (parse_date strptime_ymd_hmsf (exited_at m)) as [e|] eqn:Ee;
    simpl; [|discriminate].
  intros H. injection H as <-. simpl. rewrite Ej, Ee. reflexivity.
Qed.

Lemma annotate_all_again members members' :
  annotate_all strptime_ymd_hmsf members = Ok members' ->
  annotate_all strptime_ymd_hmsf members' = Ok members'.
Proof.
  unfold annotate_all. revert members'.
  induction members as [|m rest IH]; simpl; intros members' H.
  - injection H as <-. reflexivity.
  - destruct (annotate strptime_ymd_hmsf m) as [m'|] eqn:Em;
      simpl in H; [|discriminate].
    destruct (mapM (annotate strptime_ymd_hmsf) rest) as [rest'|] eqn:Er;
      simpl in H; [|discriminate].
    injection H as <-. simpl.
    rewrite (annotate_again _ _ Em). simpl.
    rewrite (IH rest' eq_refl). reflexivity.
Qed.

Lemma monthly_series_rerun w members members' community_slug :
  annotate_all strptime_ymd_hmsf members = Ok members' ->
  calculate_monthly_metrics strptime_ymd_hmsf w members' community_slug
  = calculate_monthly_metrics strptime_ymd_hmsf w members community_slug.
Proof.
  intros H. pose proof (annotate_all_again _ _ H) as H'.
  unfold calculate_monthly_metrics.
  destruct members as [|m rest].
  - injection H as <-. reflexivity.
  - rewrite H. destruct members' as [|m' rest'].
    + unfold annotate_all in H. simpl in H.
      destruct (annotate strptime_ymd_hmsf m); simpl in H; [|discriminate].
      destruct (mapM (annotate strptime_ymd_hmsf) rest); discriminate.
    + rewrite H'. reflexivity.
Qed.

(** The loop of [month_range] stops on its own within the turns allowed. *)
Lemma month_index_add_one cur :
  month_index (dt_add_months cur 1) = month_index cur + 1
  /\ 1 <= month (dt_date (dt_add_months cur 1)) <= 12.
Proof.
  unfold month_index, dt_add_months, add_months. simpl.
  pose proof (Z.div_mod (month (dt_date cur) - 1 + 1) 12 ltac:(lia)).
  pose proof (Z.mod_pos_bound (month (dt_date cur) - 1 + 1) 12 ltac:(lia)).
  lia.
Qed.

Lemma dt_leb_same_year_month cur e :
  dt_leb cur e = true -> year (dt_date cur) = year (dt_date e) ->
  month (dt_date cur) <= month (dt_date e).
Proof.
  unfold dt_leb, dt_ltb, dt_eqb, date_ltb, date_eqb. intros H Hy.
  rewrite Hy, Z.ltb_irrefl, Z.eqb_refl in H. simpl in H.
  destruct (Z.ltb_spec (month (dt_date cur)) (month (dt_date e))); [lia|].
  destruct (Z.eqb_spec (month (dt_date cur)) (month (dt_date e))); [lia|].
  simpl in H. discriminate H.
Qed.

Lemma dt_leb_index cur e :
  1 <= month (dt_date cur) <= 12 -> 1 <= month (dt_date e) <= 12 ->
  dt_leb cur e = true -> month_index cur <= month_index e.
Proof.
  intros Hc He H.
  destruct (Z.eq_dec (year (dt_date cur)) (year (dt_date e))) as [Hy|Hy].
  - pose proof (dt_leb_same_year_month _ _ H Hy). unfold month_index. lia.
  - unfold month_index.
    unfold dt_leb, dt_ltb, dt_eqb, date_ltb, date_eqb in H.
    destruct (Z.ltb_spec (year (dt_date cur)) (year (dt_date e))); [lia|].
    destruct (Z.eqb_spec (year (dt_date cur)) (year (dt_date e)));
      [contradiction|]. simpl in H. discriminate H.
Qed.

Lemma month_range_loop_stable end_ fuel :
  1 <= month (dt_date end_) <= 12 ->
  forall cur extra,
    1 <= month (dt_date cur) <= 12 ->
    month_index end_ - month_index cur < Z.of_nat fuel ->
    month_range_loop (fuel + extra) cur end_ = month_range_loop fuel cur end_.
Proof.
  intros He. induction fuel as [|fuel IH]; intros cur extra Hc Hlt.
  - simpl. destruct extra as [|extra]; [reflexivity|]. simpl.
    destruct (dt_leb cur end_) eqn:E; [|reflexivity].
    pose proof (dt_leb_index _ _ Hc He E). lia.
  - simpl. destruct (dt_leb cur end_) eqn:E; [|reflexivity].
    destruct (month_index_add_one cur) as [Hi Hm].
    rewrite IH; [reflexivity|exact Hm|lia].
Qed.

Lemma month_range_fuel_enough start end_ extra :
  1 <= month (dt_date start) <= 12 -> 1 <= month (dt_date end_) <= 12 ->
  month_range_loop
    (Z.to_nat (month_index end_ - month_index start + 2) + extra)
    (replace_day1 start) end_
  = month_range start end_.
Proof.
  intros Hs He. unfold month_range.
  apply month_range_loop_stable; [exact He|exact Hs|].
  unfold month_index, replace_day1. simpl. lia.
Qed.

End ClockFacts.

(** C8 as stated fails: the functions have no reference-time parameter, and
    the same member list gives different outputs on runs a month apart. *)
Lemma outputs_change_with_run_date :
  churn_count_past_30 may20 [long_standing; brief_one] false = Ok 100%Q
  /\ churn_count_past_30 june20 [long_standing; brief_one] false = Ok 0%Q
  /\ churn_count_past_30 may20 [long_standing; brief_one] false
     <> churn_count_past_30 june20 [long_standing; brief_one] false
  /\ calculate_monthly_metrics no_second_format may20
       [long_standing; brief_one] "slug"
     <> calculate_monthly_metrics no_second_format june20
          [long_standing; brief_one] "slug".
Proof.
  split; [reflexivity|]. split; [reflexivity|]. split.
  - intros H. vm_compute in H. discriminate H.
  - intros H. vm_compute in H. discriminate H.
Qed.

Lemma outputs_depend_on_clock_date_only_witness :
  churn_count_past_30 may20 [long_standing; brief_one] false
  = churn_count_past_30 may20_evening [long_standing; brief_one] false
  /\ get_total_rev_ytd_recurring_only may20 [long_standing; brief_one]
     = get_total_rev_ytd_recurring_only may20_evening
         [long_standing; brief_one]
  /\ generate_cohort_retention_table may20 [long_standing; brief_one] 6
     = generate_cohort_retention_table may20_evening
         [long_standing; brief_one] 6
  /\ calculate_monthly_metrics no_second_format may20
       [long_standing; brief_one] "slug"
     = calculate_monthly_metrics no_second_format may20_evening
         [long_standing; brief_one] "slug".
Proof.
  destruct (outputs_depend_on_clock_date_only no_second_format may20
              may20_evening [long_standing; brief_one] false 6
              "slug"%string) as (H1 & H2 & H3 & H4).
  - split; [reflexivity|]. simpl. lia.
  - split; [reflexivity|]. simpl. lia.
  - split; [exact H1|]. split; [exact H2|]. split; [exact H3|].
    apply H4.
    repeat (apply List.Forall_cons; [split; exact I|]). apply List.Forall_nil.
Defined.

(** ** Timestamps of the normalizer *)

Section TimestampFacts.

Variable int_of_str : string -> result Z.
Variable fromisoformat : string -> result datetime.

(** A string that is no timestamp gives [None]; nothing is raised. *)
Lemma parse_ts_string_total s :
  exists r, parse_ts int_of_str fromisoformat (VStr s) = Ok r.
Proof.
  unfold parse_ts, try_except.
  destruct (fromisoformat (replace_Z s)) as [x|]; simpl; [eauto|].
  destruct (int_of_str s) as [n|]; simpl; [|eauto].
  destruct (parse_ts_number (inject_Z n)); eauto.
Qed.

Lemma parse_ts_unreadable_string s :
  ~ is_ok (fromisoformat (replace_Z s)) -> ~ is_ok (int_of_str s) ->
  parse_ts int_of_str fromisoformat (VStr s) = Ok None.
Proof.
  intros H1 H2. unfold parse_ts, try_except.
  destruct (fromisoformat (replace_Z s)); simpl; [destruct H1; exact I|].
  destruct (int_of_str s); simpl; [destruct H2; exact I|reflexivity].
Qed.

Lemma parse_ts_null : parse_ts int_of_str fromisoformat VNone = Ok None.
Proof. reflexivity. Qed.

(** The numeric branch is outside any [try]: seconds that fall beyond the
    year 9999 raise. *)
Example parse_ts_number_out_of_range :
  parse_ts int_of_str fromisoformat (VInt 500000000000) = Raise ValueError.
Proof. reflexivity. Qed.

Example parse_ts_seconds :
  parse_ts int_of_str fromisoformat (VInt 1700000000)
  = Ok (Some (mkdate 2023 11 14)).
Proof. reflexivity. Qed.

Example parse_ts_nanoseconds :
  parse_ts int_of_str fromisoformat (VInt 1700000000000000000)
  = Ok (Some (mkdate 2023 11 14)).
Proof. reflexivity. Qed.

End TimestampFacts.

(** * Further properties *)

(** ** Rolling 30-day figures *)

Section RollingFacts.

Lemma fold_left_Qplus_acc (l : list Q) (a : Q) :
  (fold_left Qplus l a == a + fold_left Qplus l 0)%Q.
Proof.
  revert a. induction l as [|x l IH]; intros a; simpl.
  - ring.
  - rewrite (IH (a + x)%Q), (IH (0 + x)%Q). ring.
Qed.

Lemma py_sum_cons (x : Q) (l : list Q) : (py_sum (x :: l) == x + py_sum l)%Q.
Proof.
  unfold py_sum. simpl. rewrite fold_left_Qplus_acc. ring.
Qed.

Lemma py_sum_nonneg (l : list Q) :
  (forall x, In x l -> (0 <= x)%Q) -> (0 <= py_sum l)%Q.
Proof.
  induction l as [|x l IH]; intros H.
  - apply Qle_refl.
  - rewrite py_sum_cons.
    pose proof (H x (or_introl eq_refl)).
    assert (0 <= py_sum l)%Q by (apply IH; intros y Hy; apply H; right; exact Hy).
    apply (Qplus_le_compat 0 x 0 (py_sum l)); assumption.
Qed.

(** Total MRR is the MRR outside annual plans plus the MRR of the active
    members on an annual plan. *)
Theorem mrr_splits_by_plan members :
  (calculate_mrr members
   == calculate_mrr_no_annual members
      + py_sum (map mrr
          (List.filter
             (fun m => is_active m && plan_eqb (plan_type m) annual)
             members)))%Q.
Proof.
  unfold calculate_mrr, calculate_mrr_no_annual.
  induction members as [|m rest IH]; simpl; [reflexivity|].
  destruct (is_active m); simpl; [|exact IH].
  destruct (plan_eqb (plan_type m) annual); simpl;
    rewrite !py_sum_cons, IH; ring.
Qed.

(** With no negative mrr, the MRR outside annual plans lies between zero
    and the total MRR. *)
Theorem mrr_no_annual_within_total members :
  (forall m, In m members -> (0 <= mrr m)%Q) ->
  (0 <= calculate_mrr_no_annual members)%Q
  /\ (calculate_mrr_no_annual members <= calculate_mrr members)%Q.
Proof.
  intros Hpos.
  assert (Hsub : forall (f : Member -> bool),
            (0 <= py_sum (map mrr (List.filter f members)))%Q).
  { intros f. apply py_sum_nonneg. intros x Hx.
    apply in_map_iff in Hx as (m & <- & Hm).
    apply List.filter_In in Hm as [Hm _]. apply Hpos, Hm. }
  split; [apply Hsub|].
  rewrite (mrr_splits_by_plan members).
  pose proof (Hsub (fun m => is_active m && plan_eqb (plan_type m) annual)) as H.
  set (a := calculate_mrr_no_annual members) in *.
  set (b := py_sum _) in *.
  rewrite <- (Qplus_0_r a) at 1. apply Qplus_le_compat; [apply Qle_refl|exact H].
Qed.

End RollingFacts.

Section RollingCounts.

Lemma filterM_weaken {A : Type} (p q : A -> result bool) l r :
  (forall x b, In x l -> p x = Ok b -> q x = Ok b) ->
  filterM p l = Ok r -> filterM q l = Ok r.
Proof.
  revert r. induction l as [|x l IH]; simpl; intros r H Hr; [exact Hr|].
  destruct (p x) as [b|] eqn:Hx; simpl in Hr; [|discriminate].
  destruct (filterM p l) as [r'|] eqn:Hl; simpl in Hr; [|discriminate].
  rewrite (H x b (or_introl eq_refl) Hx). simpl.
  rewrite (IH r'); [exact Hr| |reflexivity].
  intros y c Hy. apply H. right. exact Hy.
Qed.

Lemma filterM_shrink {A : Type} (p q : A -> result bool) l r :
  (forall x b, In x l -> p x = Ok b ->
               exists b', q x = Ok b' /\ (b' = true -> b = true)) ->
  filterM p l = Ok r ->
  exists r', filterM q l = Ok r' /\ (length r' <= length r)%nat.
Proof.
  revert r. induction l as [|x l IH]; simpl; intros r H Hr.
  - injection Hr as <-. exists []. auto.
  - destruct (p x) as [b|] eqn:Hx; simpl in Hr; [|discriminate].
    destruct (filterM p l) as [r0|] eqn:Hl; simpl in Hr; [|discriminate].
    injection Hr as <-.
    destruct (H x b (or_introl eq_refl) Hx) as (b' & Hq & Himp).
    destruct (IH r0) as (r' & Hr' & Hle); [|reflexivity|].
    { intros y c Hy. apply H. right. exact Hy. }
    rewrite Hq, Hr'. simpl. eexists; split; [reflexivity|].
    destruct b'; [rewrite (Himp eq_refl)|destruct b]; simpl; lia.
Qed.

Lemma filterM_of_filter {A : Type} (p : A -> result bool) (q : A -> bool)
  l a b :
  filterM p (List.filter q l) = Ok a -> filterM p l = Ok b ->
  (length a <= length b)%nat.
Proof.
  revert a b. induction l as [|x l IH]; simpl; intros a b Ha Hb.
  - injection Ha as <-. simpl. lia.
  - destruct (p x) as [bx|] eqn:Hx; simpl in Hb; [|discriminate].
    destruct (filterM p l) as [b0|] eqn:Hl; simpl in Hb; [|discriminate].
    injection Hb as <-.
    destruct (q x); simpl in Ha.
    + rewrite Hx in Ha. simpl in Ha.
      destruct (filterM p (List.filter q l)) as [a0|] eqn:Hfa;
        simpl in Ha; [|discriminate].
      injection Ha as <-. specialize (IH a0 b0 eq_refl eq_refl).
      destruct bx; simpl; lia.
    + specialize (IH a b0 Ha eq_refl). destruct bx; simpl; lia.
Qed.

Lemma active_30_cond_of_starting b na m v :
  starting_cond b na m = Ok v -> active_30_cond b na m = Ok v.
Proof.
  unfold starting_cond, active_30_cond, and_then, or_else. simpl.
  destruct (negb na || negb (plan_eqb (plan_type m) annual)),
    (truthy (joined_at m)); simpl;
    try (intros H; first [exact H | discriminate H]);
    (destruct (strptime_date (str_of (joined_at m))) as [j|]; simpl;
     [|intros H; discriminate H]);
    (destruct (date_leb j b); simpl; [|intros H; exact H]);
    (destruct (truthy (exited_at m)); simpl; [|intros H; exact H]);
    (destruct (strptime_date (str_of (exited_at m))) as [e|]; simpl;
     [|intros H; discriminate H]);
    destruct (date_ltb b e); intros H; exact H.
Qed.

(** Whenever the churn rate has a denominator, [count_active_30_days_ago]
    returns its size. *)
Theorem count_active_is_churn_denominator w members no_annual s :
  starting w no_annual members = Ok s ->
  count_active_30_days_ago w members no_annual
  = Ok (Z.of_nat (length s)).
Proof.
  intros Hs. unfold count_active_30_days_ago. unfold starting in Hs.
  pose proof (filterM_weaken _ (active_30_cond (window_start w) no_annual)
                _ _ (fun x v _ => active_30_cond_of_starting _ _ x v) Hs)
    as H.
  unfold window_start in H. rewrite H. reflexivity.
Qed.

(** The churned count of [calculate_churn_past_30] leaves out the members
    still flagged active: it never exceeds the numerator of the churn rate,
    and reaches it when no member with an exit date is flagged active. *)
Theorem churn_count_within_rate_numerator w members c :
  churned w false members = Ok c ->
  exists n,
    calculate_churn_past_30 w members = Ok n
    /\ 0 <= n <= Z.of_nat (length c)
    /\ ((forall m, In m members -> truthy (exited_at m) = true ->
                   is_active m = false) ->
        n = Z.of_nat (length c)).
Proof.
  intros Hc. unfold churned in Hc. unfold calculate_churn_past_30.
  change (sub_days (dt_date (utc_now w)) 30) with (window_start w).
  set (q := fun m => and_then (Ok (negb (is_active m)))
                       (and_then (Ok (truthy (exited_at m)))
                          (exited_between (window_start w)
                             (dt_date (utc_now w)) m))).
  assert (Hrel : forall x b, In x members ->
            churned_cond (window_start w) (dt_date (utc_now w)) false x = Ok b ->
            q x = Ok (b && negb (is_active x))).
  { intros x b _. unfold q, churned_cond, exited_between, and_then. simpl.
    destruct (truthy (exited_at x)); simpl.
    - destruct (strptime_date (str_of (exited_at x))) as [e|]; simpl;
        [|discriminate].
      rewrite andb_true_r || idtac.
      destruct (date_leb (window_start w) e && date_leb e (dt_date (utc_now w)));
        simpl; intros H; injection H as <-; destruct (is_active x); reflexivity.
    - intros H; injection H as <-. destruct (is_active x); reflexivity. }
  destruct (filterM_shrink
              (churned_cond (window_start w) (dt_date (utc_now w)) false)
              q members c) as (r' & Hr' & Hle); [|exact Hc|].
  { intros x b Hx Hb. rewrite (Hrel x b Hx Hb). eexists; split; [reflexivity|].
    intros H. apply andb_true_iff in H. tauto. }
  rewrite Hr'. simpl.
  eexists; split; [reflexivity|]. split; [lia|].
  intros Hall.
  assert (Hsame : filterM q members = Ok c).
  { apply (filterM_weaken
             (churned_cond (window_start w) (dt_date (utc_now w)) false)
             q members c); [|exact Hc].
    intros x b Hx Hb. rewrite (Hrel x b Hx Hb).
    destruct (truthy (exited_at x)) eqn:Ht.
    - rewrite (Hall x Hx Ht). simpl. rewrite andb_true_r. reflexivity.
    - unfold churned_cond, and_then in Hb. simpl in Hb. rewrite Ht in Hb.
      simpl in Hb. injection Hb as <-. reflexivity. }
  rewrite Hsame in Hr'. injection Hr' as <-. reflexivity.
Qed.

End RollingCounts.

Section RollingAverages.

Lemma sum_Z_acc (l : list Z) (a : Z) : fold_left Z.add l a = a + sum_Z l.
Proof.
  unfold sum_Z. revert a. induction l as [|x l IH]; intros a; simpl; [lia|].
  rewrite (IH (a + x)), (IH (0 + x)). lia.
Qed.

Lemma sum_Z_at_least_length (l : list Z) :
  (forall x, In x l -> 1 <= x) -> Z.of_nat (length l) <= sum_Z l.
Proof.
  induction l as [|x l IH]; intros H; [unfold sum_Z; simpl; lia|].
  unfold sum_Z. simpl fold_left. rewrite sum_Z_acc.
  pose proof (H x (or_introl eq_refl)).
  assert (Z.of_nat (length l) <= sum_Z l)
    by (apply IH; intros y Hy; apply H; right; exact Hy).
  simpl length. lia.
Qed.

Lemma lifespan_of_positive m x : lifespan_of m = Some x -> 1 <= x.
Proof.
  unfold lifespan_of. intros H.
  repeat case_match; try discriminate. injection H as <-. lia.
Qed.

Lemma lifespan_of_qualifying m j e :
  plan_type m <> annual -> is_active m = false ->
  truthy (joined_at m) = true -> truthy (exited_at m) = true ->
  strptime_ymd (str_of (joined_at m)) = Ok j ->
  strptime_ymd (str_of (exited_at m)) = Ok e ->
  ymd2ord (dt_date j) < ymd2ord (dt_date e) ->
  lifespan_of m = Some (ymd2ord (dt_date e) - ymd2ord (dt_date j)).
Proof.
  intros Hp Ha Hj He Hpj Hpe Hlt. unfold lifespan_of.
  assert (Hplan : plan_eqb (plan_type m) annual = false)
    by (destruct (plan_type m); simpl; congruence).
  rewrite Hplan, Ha, Hj, He, Hpj, Hpe. simpl.
  destruct (Z.ltb_spec 0 (ymd2ord (dt_date e) - ymd2ord (dt_date j)));
    [reflexivity|lia].
Qed.

(** Members still active or on an annual plan do not enter the average: a
    list made of them alone averages to 0. *)
Lemma average_lifespan_ignores_active_and_annual members :
  (forall m, In m members -> is_active m = true \/ plan_type m = annual) ->
  average_lifespan_no_annual members = 0%Q.
Proof.
  intros H. unfold average_lifespan_no_annual.
  assert (Hnil : omap lifespan_of members = []).
  { induction members as [|m rest IH]; [reflexivity|]. simpl.
    assert (Hm : lifespan_of m = None).
    { unfold lifespan_of.
      destruct (H m (or_introl eq_refl)) as [-> | ->]; simpl;
        [rewrite andb_false_r|]; reflexivity. }
    rewrite Hm. apply IH. intros y Hy. apply H. right. exact Hy. }
  rewrite Hnil. reflexivity.
Qed.

(** As soon as one churned member off the annual plan has an exit date
    after its join date, the average lifespan is at least one day: spans of
    zero or fewer days and unreadable dates never pull it down. *)
Theorem average_lifespan_at_least_a_day members m j e :
  In m members ->
  plan_type m <> annual -> is_active m = false ->
  truthy (joined_at m) = true -> truthy (exited_at m) = true ->
  strptime_ymd (str_of (joined_at m)) = Ok j ->
  strptime_ymd (str_of (exited_at m)) = Ok e ->
  ymd2ord (dt_date j) < ymd2ord (dt_date e) ->
  (1 <= average_lifespan_no_annual members)%Q.
Proof.
  intros Hin Hp Ha Hj He Hpj Hpe Hlt.
  pose proof (lifespan_of_qualifying m j e Hp Ha Hj He Hpj Hpe Hlt) as Hm.
  unfold average_lifespan_no_annual.
  assert (Hmem : In (ymd2ord (dt_date e) - ymd2ord (dt_date j))
                    (omap lifespan_of members)).
  { apply list_elem_of_In, list_elem_of_omap. exists m.
    split; [apply list_elem_of_In; exact Hin|exact Hm]. }
  assert (Hall : forall x, In x (omap lifespan_of members) -> 1 <= x).
  { intros x Hx. apply list_elem_of_In, list_elem_of_omap in Hx
      as (m' & _ & Hm'). exact (lifespan_of_positive _ _ Hm'). }
  pose proof (sum_Z_at_least_length _ Hall) as Hsum.
  destruct (omap lifespan_of members) as [|x l] eqn:E; [destruct Hmem|].
  apply Qle_shift_div_l.
  - change 0%Q with (inject_Z 0). rewrite <- Zlt_Qlt. simpl length. lia.
  - rewrite Qmult_1_l. rewrite <- Zle_Qle. exact Hsum.
Qed.

Lemma py_sum_positive (l : list Q) :
  l <> [] -> (forall x, In x l -> (0 < x)%Q) -> (0 < py_sum l)%Q.
Proof.
  induction l as [|x l IH]; intros Hne H; [contradiction|].
  rewrite py_sum_cons.
  pose proof (H x (or_introl eq_refl)) as Hx.
  assert (0 <= py_sum l)%Q.
  { apply py_sum_nonneg. intros y Hy. apply Qlt_le_weak, H. right. exact Hy. }
  apply (Qplus_lt_le_compat 0 x 0 (py_sum l)); assumption.
Qed.

(** What the figures for the monthly paying members satisfy whenever they
    are returned: the acquisitions are among the new members of the last 30
    days, the churn rate is not negative, and the average price is zero
    without current members and positive with them. *)
Theorem monthly_paying_figures w members r :
  get_monthly_metrics_for_monthly_paying_members w members = Ok r ->
  0 <= mp_monthly_acquisition r <= mp_new_members_in_last_30d r
  /\ (0 <= mp_churn_rate r)%Q
  /\ (mp_current_members r = 0 -> mp_average_price r = 0%Q)
  /\ (0 < mp_current_members r -> (0 < mp_average_price r)%Q).
Proof.
  unfold get_monthly_metrics_for_monthly_paying_members.
  set (now := dt_date (utc_now w)). set (d30 := sub_days now 30).
  set (paying := List.filter is_monthly_paying members).
  destruct (filterM (joined_in_last_30 d30 now) paying) as [acq|] eqn:Hacq;
    simpl; [|discriminate].
  destruct (filterM (churned_in_last_30 d30 now) paying) as [ch|] eqn:Hch;
    simpl; [|discriminate].
  destruct (filterM (was_active_30_days_ago d30) paying) as [act|] eqn:Hact;
    simpl; [|discriminate].
  destruct (filterM (joined_in_last_30 d30 now) members) as [new|] eqn:Hnew;
    simpl; [|discriminate].
  intros H. injection H as <-. simpl.
  split.
  { pose proof (filterM_of_filter _ _ _ _ _ Hacq Hnew). lia. }
  split.
  { destruct act as [|a act']; [apply Qle_refl|].
    apply Qle_shift_div_l.
    - change 0%Q with (inject_Z 0). rewrite <- Zlt_Qlt. simpl length. lia.
    - rewrite Qmult_0_l. change 0%Q with (inject_Z 0). rewrite <- Zle_Qle. lia. }
  split.
  { destruct (List.filter is_active paying) as [|c cs]; [reflexivity|].
    intros H0. exfalso. simpl length in H0. lia. }
  intros Hpos.
  destruct (List.filter is_active paying) as [|c cs] eqn:Hcur;
    [simpl in Hpos; lia|].
  apply Qlt_shift_div_l.
  - change 0%Q with (inject_Z 0). rewrite <- Zlt_Qlt. simpl length. lia.
  - rewrite Qmult_0_l. apply py_sum_positive; [discriminate|].
    intros x Hx. apply in_map_iff in Hx as (m & <- & Hm).
    rewrite <- Hcur in Hm. apply List.filter_In in Hm as [Hm _].
    apply List.filter_In in Hm as [_ Hm].
    unfold is_monthly_paying in Hm. apply andb_true_iff in Hm as [_ Hm].
    apply negb_true_iff in Hm.
    destruct (Qlt_le_dec 0 (price m)) as [Hlt|Hle]; [exact Hlt|].
    apply Qle_bool_iff in Hle. congruence.
Qed.

End RollingAverages.

Lemma mrr_no_annual_within_total_witness :
  (0 <= calculate_mrr_no_annual [long_standing; annual_all_year; brief_one])%Q
  /\ (calculate_mrr_no_annual [long_standing; annual_all_year; brief_one]
      <= calculate_mrr [long_standing; annual_all_year; brief_one])%Q.
Proof.
  apply (mrr_no_annual_within_total
           [long_standing; annual_all_year; brief_one]).
  intros m [<-|[<-|[<-|[]]]]; simpl; unfold Qle; simpl; lia.
Defined.

Lemma count_active_is_churn_denominator_witness :
  count_active_30_days_ago may20 [long_standing; brief_one] false
  = Ok (Z.of_nat (length [long_standing])).
Proof.
  apply (count_active_is_churn_denominator may20
           [long_standing; brief_one] false [long_standing]).
  reflexivity.
Defined.

Lemma churn_count_within_rate_numerator_witness :
  exists n,
    calculate_churn_past_30 may20 [long_standing; brief_one] = Ok n
    /\ 0 <= n <= Z.of_nat (length [brief_one])
    /\ ((forall m, In m [long_standing; brief_one] ->
                   truthy (exited_at m) = true -> is_active m = false) ->
        n = Z.of_nat (length [brief_one])).
Proof.
  apply (churn_count_within_rate_numerator may20
           [long_standing; brief_one] [brief_one]).
  reflexivity.
Defined.

Lemma average_lifespan_at_least_a_day_witness :
  (1 <= average_lifespan_no_annual [long_standing; brief_one])%Q.
Proof.
  apply (average_lifespan_at_least_a_day [long_standing; brief_one]
           brief_one (midnight (mkdate 2024 5 5))
           (midnight (mkdate 2024 5 10))).
  - right. left. reflexivity.
  - discriminate.
  - reflexivity.
  - reflexivity.
  - reflexivity.
  - reflexivity.
  - reflexivity.
  - reflexivity.
Defined.

Lemma monthly_paying_figures_witness :
  let r := mkMonthlyPaying 1 1 1 1 100 1 in
  0 <= mp_monthly_acquisition r <= mp_new_members_in_last_30d r
  /\ (0 <= mp_churn_rate r)%Q
  /\ (mp_current_members r = 0 -> mp_average_price r = 0%Q)
  /\ (0 < mp_current_members r -> (0 < mp_average_price r)%Q).
Proof.
  apply (monthly_paying_figures may20 [long_standing; brief_one]
           (mkMonthlyPaying 1 1 1 1 100 1)).
  reflexivity.
Defined.


(** ** Pie-chart distributions *)

Section RoundingFacts.

Lemma round_half_even_bounds (x : Q) (a b : Z) :
  (inject_Z a <= x)%Q -> (x <= inject_Z b)%Q ->
  a <= round_half_even x <= b.
Proof.
  destruct x as [n d]. unfold round_half_even, Qle, Qcompare. simpl.
  intros Ha Hb.
  pose proof (Z.mul_div_le n (Z.pos d) ltac:(lia)) as Hlo.
  pose proof (Z.mul_succ_div_gt n (Z.pos d) ltac:(lia)) as Hhi.
  rewrite Pos.mul_1_r.
  generalize dependent (n / Z.pos d). intros f Hlo Hhi.
  assert (HD : 0 < Z.pos d) by lia.
  generalize dependent (Z.pos d). intros D Ha Hb Hlo Hhi HD.
  assert (Haf : a <= f)
    by (apply Z.lt_succ_r; apply (Z.mul_lt_mono_pos_r D); lia).
  assert (Hfb : f <= b) by (apply (Z.mul_le_mono_pos_r _ _ D); lia).
  destruct (Z.compare_spec ((n * 1 + - f * D) * 2) (1 * D)) as [E|E|E].
  - destruct (Z.even f); [lia|].
    destruct (Z.eq_dec f b) as [Heq|Hne]; [|lia]. subst f. lia.
  - lia.
  - destruct (Z.eq_dec f b) as [Heq|Hne]; [|lia]. subst f. lia.
Qed.

Lemma round2_bounds (x : Q) :
  (0 <= x)%Q -> (x <= 100)%Q -> (0 <= round2 x)%Q /\ (round2 x <= 100)%Q.
Proof.
  intros H0 H1. unfold round2.
  destruct (round_half_even_bounds (x * 100) 0 10000) as [Hlo Hhi].
  - change (inject_Z 0) with (0 * 100)%Q.
    apply Qmult_le_compat_r; [exact H0|discriminate].
  - change (inject_Z 10000) with (100 * 100)%Q.
    apply Qmult_le_compat_r; [exact H1|discriminate].
  - generalize dependent (round_half_even (x * 100)). intros r Hlo Hhi.
    split; unfold Qle, Qdiv, Qmult, Qinv; simpl; lia.
Qed.

Lemma percent_of_bounds c total :
  0 <= c <= total ->
  (0 <= percent_of c total)%Q /\ (percent_of c total <= 100)%Q.
Proof.
  intros Hc. unfold percent_of. apply round2_bounds.
  - destruct (Z.eqb_spec total 0); [apply Qle_refl|].
    destruct total as [|p|p]; try lia.
    unfold Qle, Qdiv, Qmult, Qinv. simpl. nia.
  - destruct (Z.eqb_spec total 0); [discriminate|].
    destruct total as [|p|p]; try lia.
    unfold Qle, Qdiv, Qmult, Qinv. simpl. nia.
Qed.

End RoundingFacts.

Section BucketFacts.

Variable key_of : py_value -> option Z.
Variable field : MemberView -> py_value.

Lemma lookup_bump k0 (counts : gmap Z Z) k :
  default 0 (bump k0 counts !! k)
  = default 0 (counts !! k) + (if k0 =? k then 1 else 0).
Proof.
  unfold bump. destruct (Z.eqb_spec k0 k) as [->|Hne].
  - rewrite lookup_insert_eq. simpl. lia.
  - rewrite lookup_insert_ne by exact Hne. lia.
Qed.

Lemma lookup_zero_counts keys k : default 0 (zero_counts keys !! k) = 0.
Proof.
  unfold zero_counts. induction keys as [|k0 keys IH]; simpl.
  - rewrite lookup_empty. reflexivity.
  - destruct (Z.eq_dec k0 k) as [->|Hne].
    + rewrite lookup_insert_eq. reflexivity.
    + rewrite lookup_insert_ne by exact Hne. exact IH.
Qed.

Lemma fold_count_step members st :
  let st' := fold_left (count_step key_of field) members st in
  (forall k,
     default 0 (st'.1 !! k)
     = default 0 (st.1 !! k)
       + Z.of_nat (length (List.filter (has_key key_of field k) members)))
  /\ st'.2 = st.2 + Z.of_nat (length (List.filter (keyed key_of field) members)).
Proof.
  revert st. induction members as [|m rest IH]; intros st; simpl.
  - split; [intros k|]; lia.
  - destruct (IH (count_step key_of field st m)) as [Hk Ht].
    unfold count_step, has_key, keyed in *.
    destruct (key_of (field m)) as [k0|]; simpl in *.
    + split.
      * intros k. rewrite Hk, lookup_bump.
        destruct (k0 =? k); simpl length; lia.
      * rewrite Ht. simpl length. lia.
    + split; [intros k; rewrite Hk; lia|rewrite Ht; lia].
Qed.

Lemma bucket_rows_keys keys st : map bucket_key (bucket_rows keys st) = keys.
Proof.
  unfold bucket_rows. rewrite map_map. simpl. apply map_id.
Qed.

Lemma sum_Z_cons x l : sum_Z (x :: l) = x + sum_Z l.
Proof. unfold sum_Z. simpl. rewrite sum_Z_acc. unfold sum_Z. lia. Qed.

Lemma indicator_sum (keys : list Z) k0 :
  NoDup keys -> In k0 keys ->
  sum_Z (map (fun k => if k0 =? k then 1 else 0) keys) = 1.
Proof.
  induction 1 as [|k keys Hnot Hnd IH]; intros Hin; [destruct Hin|].
  rewrite list_elem_of_In in Hnot.
  simpl map. rewrite sum_Z_cons.
  destruct (Z.eqb_spec k0 k) as [->|Hne].
  - assert (Hz : sum_Z (map (fun k' => if k =? k' then 1 else 0) keys) = 0).
    { clear IH Hin Hnd. induction keys as [|k' keys IH]; [reflexivity|].
      simpl map. rewrite sum_Z_cons.
      destruct (Z.eqb_spec k k') as [->|_]; [exfalso; apply Hnot; left; reflexivity|].
      rewrite IH; [lia|]. intros H. apply Hnot. right. exact H. }
    lia.
  - destruct Hin as [->|Hin]; [contradiction|]. rewrite IH by exact Hin. lia.
Qed.

Lemma sum_Z_map_add (f g : Z -> Z) (keys : list Z) :
  sum_Z (map (fun k => f k + g k) keys)
  = sum_Z (map f keys) + sum_Z (map g keys).
Proof.
  induction keys as [|k keys IH]; [reflexivity|].
  simpl map. rewrite !sum_Z_cons, IH. lia.
Qed.

Lemma sum_Z_map_zero (keys : list Z) : sum_Z (map (fun _ => 0) keys) = 0.
Proof.
  induction keys as [|k keys IH]; [reflexivity|].
  simpl map. rewrite sum_Z_cons, IH. lia.
Qed.

Lemma counts_sum_to_keyed (keys : list Z) members :
  NoDup keys ->
  (forall v k, key_of v = Some k -> In k keys) ->
  sum_Z (map (fun k =>
           Z.of_nat (length (List.filter (has_key key_of field k) members)))
         keys)
  = Z.of_nat (length (List.filter (keyed key_of field) members)).
Proof.
  intros Hnd Hin. induction members as [|m rest IH].
  - simpl. apply sum_Z_map_zero.
  - rewrite (map_ext _
      (fun k => (if has_key key_of field k m then 1 else 0)
                + Z.of_nat (length (List.filter (has_key key_of field k) rest)))).
    2:{ intros k. simpl. destruct (has_key key_of field k m); simpl length; lia. }
    rewrite sum_Z_map_add, IH. simpl.
    unfold has_key, keyed. destruct (key_of (field m)) as [k0|] eqn:Hk.
    + rewrite (indicator_sum keys k0 Hnd (Hin _ _ Hk)). simpl length. lia.
    + rewrite sum_Z_map_zero. lia.
Qed.

Lemma has_key_keyed k m :
  has_key key_of field k m = true -> keyed key_of field m = true.
Proof.
  unfold has_key, keyed. destruct (key_of (field m)); [reflexivity|discriminate].
Qed.

Lemma filter_length_le {A : Type} (f g : A -> bool) (l : list A) :
  (forall x, f x = true -> g x = true) ->
  (length (List.filter f l) <= length (List.filter g l))%nat.
Proof.
  intros H. induction l as [|x l IH]; simpl; [lia|].
  destruct (f x) eqn:Hf.
  - rewrite (H x Hf). simpl. lia.
  - destruct (g x); simpl; lia.
Qed.

(** What a distribution built by the counting loop reports: one row per
    key in order, each with the number of members falling in it and a
    percentage between 0 and 100, the counts adding up to the members
    counted at all. *)
Lemma distribution_rows (keys : list Z) members :
  NoDup keys ->
  (forall v k, key_of v = Some k -> In k keys) ->
  let rows :=
    bucket_rows keys
      (fold_left (count_step key_of field) members (zero_counts keys, 0)) in
  map bucket_key rows = keys
  /\ (forall b, In b rows ->
        bucket_count b
        = Z.of_nat (length (List.filter
                              (has_key key_of field (bucket_key b)) members))
        /\ (0 <= bucket_percent b)%Q /\ (bucket_percent b <= 100)%Q)
  /\ sum_Z (map bucket_count rows)
     = Z.of_nat (length (List.filter (keyed key_of field) members))
  /\ (length (List.filter (keyed key_of field) members) <= length members)%nat.
Proof.
  intros Hnd Hin rows.
  destruct (fold_count_step members (zero_counts keys, 0)) as [Hk Ht].
  simpl in Hk, Ht.
  assert (Hcount : forall k,
            default 0 ((fold_left (count_step key_of field) members
                          (zero_counts keys, 0)).1 !! k)
            = Z.of_nat (length (List.filter (has_key key_of field k) members))).
  { intros k. rewrite Hk, lookup_zero_counts. lia. }
  split; [apply bucket_rows_keys|]. split; [|split].
  - intros b Hb. unfold rows, bucket_rows in Hb.
    apply in_map_iff in Hb as (k & <- & _). simpl.
    rewrite Hcount. split; [reflexivity|].
    apply percent_of_bounds. rewrite Ht.
    pose proof (filter_length_le (has_key key_of field k)
                  (keyed key_of field) members (has_key_keyed k)). lia.
  - unfold rows, bucket_rows. rewrite map_map. simpl.
    rewrite (map_ext _ (fun k => Z.of_nat (length
               (List.filter (has_key key_of field k) members)))) by exact Hcount.
    apply counts_sum_to_keyed; assumption.
  - apply List.filter_length_le.
Qed.

End BucketFacts.

(** The level distribution has the eight levels in order; each count is the
    number of members whose level is that integer ([True] counting as 1);
    levels that are strings, null or out of range are left out of every
    count and of the total; every percentage lies between 0 and 100. *)
Theorem level_distribution_counts members :
  let rows := get_level_distribution members in
  map bucket_key rows = [1; 2; 3; 4; 5; 6; 7; 8]
  /\ (forall b, In b rows ->
        bucket_count b
        = Z.of_nat (length (List.filter
                              (has_key level_key level (bucket_key b)) members))
        /\ (0 <= bucket_percent b)%Q /\ (bucket_percent b <= 100)%Q)
  /\ sum_Z (map bucket_count rows)
     = Z.of_nat (length (List.filter (keyed level_key level) members))
  /\ (length (List.filter (keyed level_key level) members)
      <= length members)%nat.
Proof.
  apply (distribution_rows level_key level level_keys).
  - apply (bool_decide_unpack _). vm_compute. exact I.
  - intros v k. unfold level_key, level_keys.
    destruct v as [| [|] | z | | |]; try discriminate.
    + intros H. injection H as <-. simpl. auto.
    + destruct ((1 <=? z) && (z <=? 8)) eqn:E; [|discriminate].
      intros H. injection H as <-. simpl. lia.
Qed.

(** The renewal distribution has the buckets 0 to 7 and "8+" in order; each
    count is the number of members whose renewal count falls in the bucket,
    with every count of 8 or more in the last one; null, non-integer and
    negative renewal counts are left out; every percentage lies between 0
    and 100. *)
Theorem renewal_distribution_counts members :
  let rows := get_renewal_distribution members in
  map bucket_key rows = [0; 1; 2; 3; 4; 5; 6; 7; 8]
  /\ (forall b, In b rows ->
        bucket_count b
        = Z.of_nat (length (List.filter
                              (has_key renewal_key months_renewed
                                       (bucket_key b)) members))
        /\ (0 <= bucket_percent b)%Q /\ (bucket_percent b <= 100)%Q)
  /\ sum_Z (map bucket_count rows)
     = Z.of_nat (length (List.filter (keyed renewal_key months_renewed)
                                     members))
  /\ (length (List.filter (keyed renewal_key months_renewed) members)
      <= length members)%nat.
Proof.
  apply (distribution_rows renewal_key months_renewed renewal_keys).
  - apply (bool_decide_unpack _). vm_compute. exact I.
  - intros v k. unfold renewal_key, renewal_keys.
    destruct v as [| [|] | z | | |]; try discriminate.
    + intros H. injection H as <-. simpl. auto.
    + intros H. injection H as <-. simpl. auto.
    + destruct (z <? 0) eqn:E0; [discriminate|].
      destruct (8 <=? z) eqn:E8; intros H; injection H as <-; simpl; lia.
Qed.

Lemma filter_labels_disjoint (members : list MemberView) :
  (length (List.filter (labelled "active") members)
   + length (List.filter (labelled "cancelling") members)
   <= length members)%nat
  /\ ((forall m, In m members ->
                 active_or_cancelling m = "active"%string
                 \/ active_or_cancelling m = "cancelling"%string) ->
      (length (List.filter (labelled "active") members)
       + length (List.filter (labelled "cancelling") members)
       = length members)%nat).
Proof.
  induction members as [|m rest [IH1 IH2]]; simpl; [split; [lia|reflexivity]|].
  assert (Hrest : (forall x, In x (m :: rest) ->
                     active_or_cancelling x = "active"%string
                     \/ active_or_cancelling x = "cancelling"%string) ->
                  forall x, In x rest ->
                     active_or_cancelling x = "active"%string
                     \/ active_or_cancelling x = "cancelling"%string).
  { intros H x Hx. apply H. right. exact Hx. }
  destruct (labelled "active" m) eqn:Ea, (labelled "cancelling" m) eqn:Ec;
    unfold labelled in Ea, Ec; simpl.
  - apply String.eqb_eq in Ea, Ec. congruence.
  - split; [lia|]. intros H. specialize (IH2 (Hrest H)). lia.
  - split; [lia|]. intros H. specialize (IH2 (Hrest H)). lia.
  - split; [lia|]. intros H. exfalso.
    apply String.eqb_neq in Ea, Ec.
    destruct (H m (or_introl eq_refl)); contradiction.
Qed.

(** The active and cancelling counts never add up to more than the number
    of members, add up to exactly that number when every member carries one
    of the two labels, and both percentages lie between 0 and 100. *)
Theorem active_cancelling_counts members :
  let r := get_active_and_cancelling_stats members in
  0 <= active_count r /\ 0 <= cancelling_count r
  /\ active_count r + cancelling_count r <= Z.of_nat (length members)
  /\ ((forall m, In m members ->
                 active_or_cancelling m = "active"%string
                 \/ active_or_cancelling m = "cancelling"%string) ->
      active_count r + cancelling_count r = Z.of_nat (length members))
  /\ (0 <= active_percent r)%Q /\ (active_percent r <= 100)%Q
  /\ (0 <= cancelling_percent r)%Q /\ (cancelling_percent r <= 100)%Q.
Proof.
  simpl. destruct (filter_labels_disjoint members) as [Hle Heq].
  split; [lia|]. split; [lia|]. split; [lia|].
  split; [intros H; specialize (Heq H); lia|].
  destruct (percent_of_bounds
              (Z.of_nat (length (List.filter (labelled "active") members)))
              (Z.of_nat (length members))) as [H1 H2]; [lia|].
  destruct (percent_of_bounds
              (Z.of_nat (length (List.filter (labelled "cancelling") members)))
              (Z.of_nat (length members))) as [H3 H4]; [lia|].
  auto.
Qed.

Lemma level_distribution_counts_witness :
  let rows := get_level_distribution sample_views in
  map bucket_key rows = [1; 2; 3; 4; 5; 6; 7; 8]
  /\ (forall b, In b rows ->
        bucket_count b
        = Z.of_nat (length (List.filter
                              (has_key level_key level (bucket_key b))
                              sample_views))
        /\ (0 <= bucket_percent b)%Q /\ (bucket_percent b <= 100)%Q)
  /\ sum_Z (map bucket_count rows)
     = Z.of_nat (length (List.filter (keyed level_key level) sample_views))
  /\ (length (List.filter (keyed level_key level) sample_views)
      <= length sample_views)%nat.
Proof. apply (level_distribution_counts sample_views). Defined.

Lemma renewal_distribution_counts_witness :
  let rows := get_renewal_distribution sample_views in
  map bucket_key rows = [0; 1; 2; 3; 4; 5; 6; 7; 8]
  /\ (forall b, In b rows ->
        bucket_count b
        = Z.of_nat (length (List.filter
                              (has_key renewal_key months_renewed
                                       (bucket_key b)) sample_views))
        /\ (0 <= bucket_percent b)%Q /\ (bucket_percent b <= 100)%Q)
  /\ sum_Z (map bucket_count rows)
     = Z.of_nat (length (List.filter (keyed renewal_key months_renewed)
                                     sample_views))
  /\ (length (List.filter (keyed renewal_key months_renewed) sample_views)
      <= length sample_views)%nat.
Proof. apply (renewal_distribution_counts sample_views). Defined.

Lemma active_cancelling_counts_witness :
  let r := get_active_and_cancelling_stats sample_views in
  0 <= active_count r /\ 0 <= cancelling_count r
  /\ active_count r + cancelling_count r <= Z.of_nat (length sample_views)
  /\ ((forall m, In m sample_views ->
                 active_or_cancelling m = "active"%string
                 \/ active_or_cancelling m = "cancelling"%string) ->
      active_count r + cancelling_count r = Z.of_nat (length sample_views))
  /\ (0 <= active_percent r)%Q /\ (active_percent r <= 100)%Q
  /\ (0 <= cancelling_percent r)%Q /\ (cancelling_percent r <= 100)%Q.
Proof. apply (active_cancelling_counts sample_views). Defined.

Example level_distribution_sample :
  map bucket_count (get_level_distribution sample_views)
  = [0; 0; 2; 0; 0; 0; 0; 0].
Proof. reflexivity. Qed.

Example renewal_distribution_sample :
  map bucket_count (get_renewal_distribution sample_views)
  = [0; 0; 0; 0; 1; 0; 0; 0; 1].
Proof. reflexivity. Qed.

(** ** Year-to-date revenue, continued *)

Section RevenueMore.

Lemma total_from_shift now acc members t :
  total_from now acc members = Ok t ->
  exists t0, total_from now 0 members = Ok t0 /\ (t == acc + t0)%Q.
Proof.
  revert acc t. induction members as [|m rest IH]; simpl; intros acc t H.
  - injection H as <-. exists 0%Q. split; [reflexivity|ring].
  - destruct (member_revenue now m) as [x|]; simpl in *; [|discriminate].
    destruct (IH _ _ H) as (t1 & Ht1 & Heq1).
    destruct (total_from now (0 + x) rest) as [t2|] eqn:E2.
    + destruct (IH _ _ E2) as (t3 & Ht3 & Heq3).
      exists t2. split; [reflexivity|].
      rewrite Ht1 in Ht3. injection Ht3 as <-.
      rewrite Heq1, Heq3. ring.
    + exfalso. clear - IH H E2.
      assert (Hok : forall a b r, total_from now a rest = Ok r ->
                exists r', total_from now b rest = Ok r').
      { clear. induction rest as [|m' rest' IH']; simpl; intros a b r Hr;
          [eauto|].
        destruct (member_revenue now m'); simpl in *; [|discriminate].
        eapply IH'. exact Hr. }
      destruct (Hok _ (0 + x)%Q _ H) as [r' Hr']. congruence.
Qed.

(** The total of a list is the sum of the totals of its parts: each member
    adds its own amount, whatever the others are. *)
Theorem ytd_total_is_additive w l1 l2 t :
  get_total_rev_ytd_recurring_only w (l1 ++ l2) = Ok t ->
  exists t1 t2,
    get_total_rev_ytd_recurring_only w l1 = Ok t1
    /\ get_total_rev_ytd_recurring_only w l2 = Ok t2
    /\ (t == t1 + t2)%Q.
Proof.
  unfold get_total_rev_ytd_recurring_only. rewrite total_from_app.
  destruct (total_from (dt_date (local_now w)) 0 l1) as [t1|]; simpl;
    [|discriminate].
  intros H. destruct (total_from_shift _ _ _ _ H) as (t2 & Ht2 & Heq).
  exists t1, t2. auto.
Qed.

Lemma member_revenue_nonneg now m x :
  (0 <= price m)%Q -> (0 <= mrr m)%Q ->
  member_revenue now m = Ok x -> (0 <= x)%Q.
Proof.
  intros Hp Hm. unfold member_revenue.
  destruct (negb (truthy (joined_at m)));
    [intros H; injection H as <-; apply Qle_refl|].
  destruct (strptime_date (str_of (joined_at m))) as [j|]; simpl;
    [|discriminate].
  destruct (if truthy (exited_at m) then _ else _) as [ex|]; simpl;
    [|discriminate].
  destruct (plan_eqb (plan_type m) annual).
  { intros H. injection H as <-.
    destruct (_ && _); [exact Hp|apply Qle_refl]. }
  destruct (Qeq_bool (mrr m) 0);
    [intros H; injection H as <-; apply Qle_refl|].
  destruct (_ <? _); [intros H; injection H as <-; apply Qle_refl|].
  destruct (_ <? _); [intros H; injection H as <-; apply Qle_refl|].
  intros H. injection H as <-.
  apply Qmult_le_0_compat; [exact Hm|].
  change 0%Q with (inject_Z 0). rewrite <- Zle_Qle.
  unfold month_count. apply Z.le_max_l.
Qed.

(** With no negative price or mrr the total is never negative: a month
    count below zero is clamped before it is multiplied. *)
Theorem ytd_total_nonnegative w members t :
  (forall m, In m members -> (0 <= price m)%Q /\ (0 <= mrr m)%Q) ->
  get_total_rev_ytd_recurring_only w members = Ok t ->
  (0 <= t)%Q.
Proof.
  unfold get_total_rev_ytd_recurring_only.
  assert (Hgen : forall acc, (0 <= acc)%Q ->
            (forall m, In m members -> (0 <= price m)%Q /\ (0 <= mrr m)%Q) ->
            total_from (dt_date (local_now w)) acc members = Ok t ->
            (0 <= t)%Q).
  { induction members as [|m rest IH]; simpl; intros acc Hacc Hall H.
    - injection H as <-. exact Hacc.
    - destruct (member_revenue (dt_date (local_now w)) m) as [x|] eqn:Hx;
        simpl in H; [|discriminate].
      destruct (Hall m (or_introl eq_refl)) as [Hp Hm].
      pose proof (member_revenue_nonneg _ _ _ Hp Hm Hx) as Hx0.
      apply (IH (acc + x)%Q); [|intros y Hy; apply Hall; right; exact Hy|exact H].
      apply (Qplus_le_compat 0 acc 0 x); assumption. }
  intros Hall. apply Hgen; [apply Qle_refl|exact Hall].
Qed.

End RevenueMore.

Lemma ytd_total_is_additive_witness :
  exists t1 t2,
    get_total_rev_ytd_recurring_only may20 [long_standing] = Ok t1
    /\ get_total_rev_ytd_recurring_only may20 [annual_all_year] = Ok t2
    /\ (1700 == t1 + t2)%Q.
Proof.
  apply (ytd_total_is_additive may20 [long_standing] [annual_all_year] 1700).
  reflexivity.
Defined.

Lemma ytd_total_nonnegative_witness : (0 <= 1700)%Q.
Proof.
  apply (ytd_total_nonnegative may20 [long_standing; annual_all_year] 1700).
  - intros m [<-|[<-|[]]]; split; unfold Qle; simpl; lia.
  - reflexivity.
Defined.

(** ** Churn rate, continued *)

(** Without annual members the two variants of the churn rate agree. *)
Theorem churn_rate_no_annual_same_without_annual w members :
  (forall m, In m members -> plan_type m <> annual) ->
  churn_count_past_30 w members true = churn_count_past_30 w members false.
Proof.
  intros H. unfold churn_count_past_30, starting, churned.
  assert (Hplan : forall m, In m members ->
            plan_eqb (plan_type m) annual = false).
  { intros m Hm. specialize (H m Hm). destruct (plan_type m); simpl; congruence. }
  rewrite (filterM_ext (starting_cond (window_start w) true)
             (starting_cond (window_start w) false) members).
  2:{ intros m Hm. unfold starting_cond. rewrite (Hplan m Hm). reflexivity. }
  rewrite (filterM_ext
             (churned_cond (window_start w) (dt_date (utc_now w)) true)
             (churned_cond (window_start w) (dt_date (utc_now w)) false)
             members).
  2:{ intros m Hm. unfold churned_cond. rewrite (Hplan m Hm). reflexivity. }
  reflexivity.
Qed.

Lemma churn_rate_no_annual_same_without_annual_witness :
  churn_count_past_30 may20 [long_standing; brief_one] true
  = churn_count_past_30 may20 [long_standing; brief_one] false.
Proof.
  apply (churn_rate_no_annual_same_without_annual may20
           [long_standing; brief_one]).
  intros m [<-|[<-|[]]]; discriminate.
Defined.

(** ** Growth ceiling projector, continued *)

Section GrowthMore.

Local Open Scope R_scope.

Lemma ln_le_mono (x y : R) : 0 < x -> x <= y -> ln x <= ln y.
Proof.
  intros Hx [Hlt|Heq].
  - left. apply ln_increasing; assumption.
  - right. rewrite Heq. reflexivity.
Qed.

(** Below the target the time to reach it is not negative. *)
Lemma time_to_pct_ceiling_nonneg ceiling current_members churn_rate pct :
  0 < churn_rate -> pct < 1 ->
  IZR current_members <= pct * ceiling ->
  exists t,
    time_to_pct_ceiling ceiling current_members churn_rate pct = Ok t
    /\ 0 <= t.
Proof.
  intros Hc Hp Hlo. unfold time_to_pct_ceiling.
  destruct (Req_dec_T ceiling 0); [exists 0; split; [reflexivity|lra]|].
  destruct (Rge_dec (IZR current_members) ceiling);
    [exists 0; split; [reflexivity|lra]|].
  rewrite py_div_ok by lra. simpl.
  destruct (Rle_dec _ 0) as [Hr|Hr]; [exists 0; split; [reflexivity|lra]|].
  rewrite py_log_ok by lra. simpl. rewrite py_div_ok by lra.
  eexists; split; [reflexivity|].
  assert (Hden : 0 < ceiling - IZR current_members) by lra.
  assert (Hratio : (ceiling - pct * ceiling)
                   / (ceiling - IZR current_members) <= 1).
  { apply Rmult_le_reg_r with (ceiling - IZR current_members); [lra|].
    unfold Rdiv. rewrite Rmult_assoc, Rinv_l by lra. lra. }
  assert (Hln : ln ((ceiling - pct * ceiling)
                    / (ceiling - IZR current_members)) <= 0).
  { rewrite <- ln_1. apply ln_le_mono; lra. }
  assert (0 < / churn_rate) by (apply Rinv_0_lt_compat; lra).
  unfold Rdiv at 1. nra.
Qed.

(** A higher share of the ceiling never takes less time. *)
Lemma time_to_pct_ceiling_monotone ceiling current_members churn_rate p1 p2 :
  0 < churn_rate -> p1 <= p2 -> p2 < 1 ->
  exists t1 t2,
    time_to_pct_ceiling ceiling current_members churn_rate p1 = Ok t1
    /\ time_to_pct_ceiling ceiling current_members churn_rate p2 = Ok t2
    /\ t1 <= t2.
Proof.
  intros Hc Hp Hp2. unfold time_to_pct_ceiling.
  destruct (Req_dec_T ceiling 0);
    [exists 0, 0; repeat split; lra|].
  destruct (Rge_dec (IZR current_members) ceiling);
    [exists 0, 0; repeat split; lra|].
  assert (Hden : 0 < ceiling - IZR current_members) by lra.
  assert (Hinv : 0 < / (ceiling - IZR current_members))
    by (apply Rinv_0_lt_compat; lra).
  rewrite !py_div_ok by lra. simpl.
  assert (Hc' : 0 < / churn_rate) by (apply Rinv_0_lt_compat; lra).
  destruct (Rlt_dec ceiling 0) as [Hneg|Hpos].
  - (* a negative ceiling: both ratios are below zero *)
    assert (Hn1 : ceiling - p1 * ceiling <= 0) by nra.
    assert (Hn2 : ceiling - p2 * ceiling <= 0) by nra.
    destruct (Rle_dec ((ceiling - p1 * ceiling)
                       / (ceiling - IZR current_members)) 0) as [_|H1];
      [|exfalso; apply H1; unfold Rdiv; nra].
    destruct (Rle_dec ((ceiling - p2 * ceiling)
                       / (ceiling - IZR current_members)) 0) as [_|H2];
      [|exfalso; apply H2; unfold Rdiv; nra].
    exists 0, 0. repeat split; lra.
  - assert (Hcpos : 0 < ceiling) by lra.
    assert (Hn2 : 0 < ceiling - p2 * ceiling) by nra.
    assert (Hn12 : ceiling - p2 * ceiling <= ceiling - p1 * ceiling) by nra.
    assert (Hr2 : 0 < (ceiling - p2 * ceiling)
                      / (ceiling - IZR current_members))
      by (unfold Rdiv; nra).
    assert (Hr12 : (ceiling - p2 * ceiling)
                   / (ceiling - IZR current_members)
                   <= (ceiling - p1 * ceiling)
                      / (ceiling - IZR current_members))
      by (unfold Rdiv; nra).
    destruct (Rle_dec ((ceiling - p1 * ceiling)
                       / (ceiling - IZR current_members)) 0); [lra|].
    destruct (Rle_dec ((ceiling - p2 * ceiling)
                       / (ceiling - IZR current_members)) 0); [lra|].
    rewrite !py_log_ok by lra. simpl. rewrite !py_div_ok by lra.
    eexists; eexists. split; [reflexivity|]. split; [reflexivity|].
    pose proof (ln_le_mono _ _ Hr2 Hr12) as Hln.
    unfold Rdiv at 1 3. nra.
Qed.

(** With a positive churn rate the projector returns every field, and the
    days to the member ceiling are never fewer than the days to the growth
    ceiling as long as the member share is the higher of the two. *)
Theorem member_ceiling_not_before_growth_ceiling current_members
  monthly_acquisition monthly_churn_count churn_rate average_price
  pct_growth pct_member :
  0 < churn_rate -> pct_growth <= pct_member -> pct_member < 1 ->
  exists g c dg dm,
    calculate_growth_metrics current_members monthly_acquisition
      monthly_churn_count churn_rate average_price pct_growth pct_member
    = Ok g
    /\ member_ceiling g = Some c
    /\ c * churn_rate = monthly_acquisition
    /\ mrr_ceiling g = Some (c * average_price)
    /\ potential_max_revenue g = Some (c * average_price * 12)
    /\ days_to_growth_ceiling g = Some dg
    /\ days_to_member_ceiling g = Some dm
    /\ dg <= dm.
Proof.
  intros Hc Hp Hp2. unfold calculate_growth_metrics.
  destruct (Req_dec_T churn_rate 0); [lra|].
  rewrite py_div_ok by lra. simpl.
  destruct (time_to_pct_ceiling_monotone (monthly_acquisition / churn_rate)
              current_members churn_rate pct_growth pct_member Hc Hp Hp2)
    as (t1 & t2 & Ht1 & Ht2 & Hle).
  assert (Hgrowth : exists gr,
            (if Rgt_dec (IZR current_members) 0
             then py_div (monthly_acquisition - monthly_churn_count)
                         (IZR current_members)
             else Ok 0) = Ok gr).
  { destruct (Rgt_dec (IZR current_members) 0);
      [rewrite py_div_ok by lra|]; eauto. }
  destruct Hgrowth as [gr ->]. simpl. rewrite Ht1. simpl. rewrite Ht2. simpl.
  eexists; exists (monthly_acquisition / churn_rate); eexists; eexists.
  split; [reflexivity|]. simpl.
  split; [reflexivity|]. split; [field; lra|].
  split; [reflexivity|]. split; [reflexivity|].
  split; [reflexivity|]. split; [reflexivity|]. lra.
Qed.

(** Below the growth target the months and days to the growth ceiling are
    not negative. *)
Theorem growth_ceiling_time_nonneg_below_target current_members
  monthly_acquisition monthly_churn_count churn_rate average_price
  pct_growth pct_member :
  0 < churn_rate -> pct_growth < 1 ->
  IZR current_members <= pct_growth * (monthly_acquisition / churn_rate) ->
  exists g t d,
    calculate_growth_metrics current_members monthly_acquisition
      monthly_churn_count churn_rate average_price pct_growth pct_member
    = Ok g
    /\ months_to_growth_ceiling g = Some t
    /\ days_to_growth_ceiling g = Some d
    /\ 0 <= t /\ 0 <= d.
Proof.
  intros Hc Hp Hlo. unfold calculate_growth_metrics.
  destruct (Req_dec_T churn_rate 0); [lra|].
  rewrite py_div_ok by lra. simpl.
  destruct (time_to_pct_ceiling_nonneg (monthly_acquisition / churn_rate)
              current_members churn_rate pct_growth Hc Hp Hlo)
    as (t & Ht & Hpos).
  destruct (time_to_pct_ceiling_total (monthly_acquisition / churn_rate)
              current_members churn_rate pct_member) as [t' Ht']; [lra|].
  assert (Hgrowth : exists gr,
            (if Rgt_dec (IZR current_members) 0
             then py_div (monthly_acquisition - monthly_churn_count)
                         (IZR current_members)
             else Ok 0) = Ok gr).
  { destruct (Rgt_dec (IZR current_members) 0);
      [rewrite py_div_ok by lra|]; eauto. }
  destruct Hgrowth as [gr ->]. simpl. rewrite Ht. simpl. rewrite Ht'. simpl.
  eexists; exists t; eexists. split; [reflexivity|]. simpl.
  split; [reflexivity|]. split; [reflexivity|]. split; [exact Hpos|lra].
Qed.

End GrowthMore.

Lemma member_ceiling_not_before_growth_ceiling_witness :
  exists g c dg dm,
    calculate_growth_metrics 40 10 2 (1 / 10) 2900 (95 / 100) (99 / 100)
    = Ok g
    /\ member_ceiling g = Some c
    /\ (c * (1 / 10) = 10)%R
    /\ mrr_ceiling g = Some (c * 2900)%R
    /\ potential_max_revenue g = Some (c * 2900 * 12)%R
    /\ days_to_growth_ceiling g = Some dg
    /\ days_to_member_ceiling g = Some dm
    /\ (dg <= dm)%R.
Proof.
  apply (member_ceiling_not_before_growth_ceiling 40 10 2 (1 / 10) 2900
           (95 / 100) (99 / 100))%R; lra.
Defined.

Lemma growth_ceiling_time_nonneg_below_target_witness :
  exists g t d,
    calculate_growth_metrics 40 10 2 (1 / 10) 2900 (95 / 100) (99 / 100)
    = Ok g
    /\ months_to_growth_ceiling g = Some t
    /\ days_to_growth_ceiling g = Some d
    /\ (0 <= t)%R /\ (0 <= d)%R.
Proof.
  apply (growth_ceiling_time_nonneg_below_target 40 10 2 (1 / 10) 2900
           (95 / 100) (99 / 100))%R; lra.
Defined.

(** ** Cohort retention, continued *)

Section CohortMore.

Lemma ym_ltb_iff (a b : ym) :
  ym_ltb a b = true <-> a.1 < b.1 \/ (a.1 = b.1 /\ a.2 < b.2).
Proof.
  unfold ym_ltb. rewrite orb_true_iff, andb_true_iff, !Z.ltb_lt, Z.eqb_eq.
  tauto.
Qed.

Lemma ym_lt_trans (a b c : ym) : ym_lt a b -> ym_lt b c -> ym_lt a c.
Proof. unfold ym_lt. rewrite !ym_ltb_iff. lia. Qed.

Lemma ym_lt_total (a b : ym) : ym_ltb a b = false -> a <> b -> ym_lt b a.
Proof.
  unfold ym_lt. intros Hf Hne.
  assert (Hn : ~ (a.1 < b.1 \/ (a.1 = b.1 /\ a.2 < b.2))).
  { rewrite <- ym_ltb_iff. congruence. }
  apply ym_ltb_iff. destruct a as [a1 a2], b as [b1 b2]. simpl in *.
  assert (a1 <> b1 \/ a2 <> b2).
  { destruct (Z.eq_dec a1 b1), (Z.eq_dec a2 b2); auto. subst. congruence. }
  lia.
Qed.

Lemma insert_sorted_keys c l k :
  In k (map fst (insert_sorted c l)) <-> k = c.1 \/ In k (map fst l).
Proof.
  rewrite !in_map_iff. split.
  - intros (x & <- & Hx). apply insert_sorted_In in Hx as [->|Hx]; [auto|].
    right. exists x. auto.
  - intros [->|(x & <- & Hx)].
    + exists c. split; [reflexivity|]. apply insert_sorted_In. auto.
    + exists x. split; [reflexivity|]. apply insert_sorted_In. auto.
Qed.

Lemma insert_sorted_sorted c l :
  StronglySorted ym_lt (map fst l) -> ~ In c.1 (map fst l) ->
  StronglySorted ym_lt (map fst (insert_sorted c l)).
Proof.
  induction l as [|c' rest IH]; simpl; intros Hs Hnot.
  - constructor; constructor.
  - inversion Hs as [|? ? Hrest Hall]; subst.
    destruct (ym_ltb c.1 c'.1) eqn:E; simpl.
    + constructor; [exact Hs|]. constructor; [exact E|].
      eapply List.Forall_impl; [|exact Hall].
      intros k Hk. exact (ym_lt_trans _ _ _ E Hk).
    + assert (Hlt : ym_lt c'.1 c.1).
      { apply ym_lt_total; [exact E|]. intros Heq. apply Hnot. left.
        symmetry. exact Heq. }
      constructor.
      * apply IH; [exact Hrest|]. intros H. apply Hnot. right. exact H.
      * apply List.Forall_forall. intros k Hk.
        apply insert_sorted_keys in Hk as [->|Hk]; [exact Hlt|].
        rewrite List.Forall_forall in Hall. apply Hall, Hk.
Qed.

Lemma sorted_items_keys l k :
  In k (map fst (sorted_items l)) <-> In k (map fst l).
Proof.
  rewrite !in_map_iff. split; intros (x & <- & Hx); exists x;
    (split; [reflexivity|]); apply sorted_items_In; exact Hx.
Qed.

Lemma sorted_items_sorted l :
  NoDup (map fst l) -> StronglySorted ym_lt (map fst (sorted_items l)).
Proof.
  induction l as [|c rest IH]; simpl; intros Hnd; [constructor|].
  apply NoDup_cons in Hnd as [Hnot Hnd]. rewrite list_elem_of_In in Hnot.
  apply insert_sorted_sorted; [apply IH, Hnd|].
  intros H. apply Hnot. apply sorted_items_keys. exact H.
Qed.

Lemma rows_loop_keys today max_months items k :
  In k (map cohort_month (rows_loop today max_months items)) ->
  In k (map fst items).
Proof.
  induction items as [|[k0 l0] rest IH]; simpl; [tauto|].
  destruct l0; simpl; [auto|]. intros [<-|H]; auto.
Qed.

Lemma rows_loop_sorted today max_months items :
  StronglySorted ym_lt (map fst items) ->
  StronglySorted ym_lt (map cohort_month (rows_loop today max_months items)).
Proof.
  induction items as [|[k0 l0] rest IH]; simpl; intros Hs; [constructor|].
  inversion Hs as [|? ? Hrest Hall]; subst.
  destruct l0; simpl; [apply IH, Hrest|].
  constructor; [apply IH, Hrest|].
  apply List.Forall_forall. intros k Hk. apply rows_loop_keys in Hk.
  rewrite List.Forall_forall in Hall. apply Hall, Hk.
Qed.

(** The rows of the table come in strictly ascending order of cohort month:
    earlier cohorts first and no month twice. *)
Theorem cohort_rows_ascending w members max_months :
  StronglySorted (fun a b => ym_ltb a b = true)
    (map cohort_month
       (generate_cohort_retention_table w members max_months)).
Proof.
  unfold generate_cohort_retention_table.
  destruct (List.filter (fun m => truthy (joined_at m)) members);
    [constructor|].
  apply rows_loop_sorted, sorted_items_sorted.
  apply (group_members_spec members).
Qed.

Lemma ratio_percent_bounds c total :
  0 <= c <= total -> 0 < total ->
  (0 <= round2 (inject_Z c / inject_Z total * 100))%Q
  /\ (round2 (inject_Z c / inject_Z total * 100) <= 100)%Q.
Proof.
  intros Hc Ht. pose proof (percent_of_bounds c total Hc) as H.
  unfold percent_of in H.
  destruct (Z.eqb_spec total 0); [lia|exact H].
Qed.

(** Every cell of the table reports a count between zero and the size of
    its cohort and a percentage between 0 and 100. *)
Theorem cohort_cells_within_bounds w members max_months row c :
  In row (generate_cohort_retention_table w members max_months) ->
  In c (cells row) ->
  0 <= count c
       <= Z.of_nat (length (cohort_of (cohort_month row) members))
  /\ (0 <= pct c)%Q /\ (pct c <= 100)%Q.
Proof.
  intros Hrow Hc. unfold generate_cohort_retention_table in Hrow.
  destruct (List.filter (fun m0 => truthy (joined_at m0)) members);
    [destruct Hrow|].
  apply (proj1 (rows_loop_In _ _ _ _)) in Hrow as (k & cm & Hin & Hne & ->).
  apply grouped_entry in Hin. subst cm. simpl in *.
  apply cells_loop_In in Hc as (n & _ & -> & _).
  assert (Hsize : 0 < Z.of_nat (length (cohort_of k members))).
  { destruct (cohort_of k members); [contradiction|simpl; lia]. }
  destruct n as [|n]; simpl.
  - split; [lia|]. apply round2_bounds; unfold Qle; simpl; lia.
  - pose proof (List.filter_length_le
                  (still_active_at (period_start_of k (S n))
                                   (period_start_of k (S (S n))))
                  (cohort_of k members)) as Hle.
    split; [lia|]. apply ratio_percent_bounds; lia.
Qed.

End CohortMore.

Lemma cohort_cells_within_bounds_witness :
  0 <= 2 <= Z.of_nat (length (cohort_of (2024, 1)
                                [long_standing; january_one; january_two]))
  /\ (0 <= 6667 # 100)%Q /\ (6667 # 100 <= 100)%Q.
Proof.
  apply (cohort_cells_within_bounds may20
           [long_standing; january_one; january_two] 6
           (mkRow (2024, 1)
              (cells_loop (local_now may20) (2024, 1)
                 [long_standing; january_one; january_two] (seq 0 6)))
           (mkCell 1 2 (6667 # 100))).
  - left. reflexivity.
  - right. left. reflexivity.
Defined.

(** ** Monthly time series, continued *)

Section MonthRange.

Ltac dt_order :=
  unfold dt_leb, dt_ltb, dt_eqb, date_leb, date_ltb, date_eqb in *;
  repeat rewrite ?orb_true_iff, ?andb_true_iff, ?orb_false_iff,
    ?andb_false_iff, ?Z.ltb_lt, ?Z.eqb_eq, ?Z.ltb_ge, ?Z.eqb_neq in *;
  lia.

Lemma dt_leb_trans a b c :
  dt_leb a b = true -> dt_leb b c = true -> dt_leb a c = true.
Proof. intros H1 H2. dt_order. Qed.

Lemma dt_leb_refl a : dt_leb a a = true.
Proof. dt_order. Qed.

Lemma dt_ltb_leb a b : dt_ltb a b = true -> dt_leb a b = true.
Proof. intros H. dt_order. Qed.

Lemma dt_ltb_false_leb a b : dt_ltb a b = false -> dt_leb b a = true.
Proof. intros H. dt_order. Qed.

Lemma first_of_month_leb cur e :
  day (dt_date cur) = 1 -> 1 <= day (dt_date e) ->
  dt_tod cur <= dt_tod e ->
  1 <= month (dt_date cur) <= 12 -> 1 <= month (dt_date e) <= 12 ->
  dt_leb cur e = (month_index cur <=? month_index e).
Proof.
  intros Hd He Ht Hc Hm. unfold month_index.
  destruct (Z.leb_spec (year (dt_date cur) * 12 + month (dt_date cur))
                       (year (dt_date e) * 12 + month (dt_date e))).
  - dt_order.
  - destruct (dt_leb cur e) eqn:E; [|reflexivity]. exfalso. dt_order.
Qed.

Lemma days_in_month_ge y m : 1 <= m <= 12 -> 28 <= days_in_month y m.
Proof.
  intros Hm. unfold days_in_month.
  destruct ((m =? 2) && is_leap y); [lia|].
  assert (m = 1 \/ m = 2 \/ m = 3 \/ m = 4 \/ m = 5 \/ m = 6 \/ m = 7
          \/ m = 8 \/ m = 9 \/ m = 10 \/ m = 11 \/ m = 12) as H by lia.
  repeat (destruct H as [->|H]; [simpl; lia|]). subst. simpl. lia.
Qed.

Lemma dt_add_one_first cur :
  day (dt_date cur) = 1 ->
  day (dt_date (dt_add_months cur 1)) = 1
  /\ dt_tod (dt_add_months cur 1) = dt_tod cur.
Proof.
  intros Hd. unfold dt_add_months, add_months. simpl. rewrite Hd.
  split; [|reflexivity].
  pose proof (Z.mod_pos_bound (month (dt_date cur) - 1 + 1) 12 ltac:(lia)).
  pose proof (days_in_month_ge
                (year (dt_date cur) + (month (dt_date cur) - 1 + 1) / 12)
                ((month (dt_date cur) - 1 + 1) mod 12 + 1) ltac:(lia)).
  lia.
Qed.

Lemma seq_from_shift (a : Z) (n : nat) :
  map (fun i => a + Z.of_nat i) (seq 1 n)
  = map (fun i => a + 1 + Z.of_nat i) (seq 0 n).
Proof.
  rewrite <- seq_shift, map_map. apply map_ext. intros i. lia.
Qed.

Lemma month_range_loop_covers end_ fuel :
  1 <= month (dt_date end_) <= 12 -> 1 <= day (dt_date end_) ->
  forall cur,
    day (dt_date cur) = 1 -> 1 <= month (dt_date cur) <= 12 ->
    dt_tod cur <= dt_tod end_ ->
    month_index end_ - month_index cur < Z.of_nat fuel ->
    map month_index (month_range_loop fuel cur end_)
    = map (fun i => month_index cur + Z.of_nat i)
          (seq 0 (Z.to_nat (month_index end_ - month_index cur + 1)))
    /\ List.Forall (fun x => day (dt_date x) = 1
                             /\ 1 <= month (dt_date x) <= 12
                             /\ dt_tod x = dt_tod cur)
                   (month_range_loop fuel cur end_).
Proof.
  intros Hm Hd. induction fuel as [|fuel IH]; intros cur Hc1 Hcm Ht Hlt.
  - simpl. replace (Z.to_nat _) with 0%nat by lia. split; constructor.
  - simpl. rewrite (first_of_month_leb cur end_) by assumption.
    destruct (Z.leb_spec (month_index cur) (month_index end_)) as [Hle|Hgt].
    + destruct (month_index_add_one cur) as [Hi Hm'].
      destruct (dt_add_one_first cur Hc1) as [Hd' Ht'].
      destruct (IH (dt_add_months cur 1)) as [IHm IHf]; try assumption;
        try lia.
      split.
      * replace (Z.to_nat (month_index end_ - month_index cur + 1))
          with (S (Z.to_nat (month_index end_ - month_index cur))) by lia.
        simpl seq. simpl map. f_equal; [lia|].
        rewrite IHm, seq_from_shift, Hi. f_equal. f_equal. lia.
      * constructor; [auto|].
        eapply List.Forall_impl; [|exact IHf]. simpl.
        intros x (H1 & H2 & H3). split; [exact H1|]. split; [exact H2|].
        congruence.
    + replace (Z.to_nat _) with 0%nat by lia. split; constructor.
Qed.

(** [month_range] gives one first-of-month entry per calendar month, from
    the month of [start] through the month of [end_], and nothing when
    [start] falls in a later month than [end_]. *)
Theorem month_range_covers start end_ :
  1 <= month (dt_date start) <= 12 -> 1 <= month (dt_date end_) <= 12 ->
  1 <= day (dt_date end_) -> dt_tod start <= dt_tod end_ ->
  map month_index (month_range start end_)
  = map (fun i => month_index start + Z.of_nat i)
        (seq 0 (Z.to_nat (month_index end_ - month_index start + 1)))
  /\ List.Forall (fun x => day (dt_date x) = 1
                           /\ 1 <= month (dt_date x) <= 12
                           /\ dt_tod x = dt_tod start)
                 (month_range start end_).
Proof.
  intros Hs He Hd Ht. unfold month_range.
  apply (month_range_loop_covers end_ _ He Hd (replace_day1 start));
    try assumption; try reflexivity.
  unfold month_index, replace_day1. simpl. lia.
Qed.

End MonthRange.

Lemma month_range_covers_witness :
  map month_index (month_range (midnight (mkdate 2023 11 15))
                               (local_now may20))
  = map (fun i => month_index (midnight (mkdate 2023 11 15)) + Z.of_nat i)
        (seq 0 (Z.to_nat (month_index (local_now may20)
                          - month_index (midnight (mkdate 2023 11 15)) + 1)))
  /\ List.Forall (fun x => day (dt_date x) = 1
                           /\ 1 <= month (dt_date x) <= 12
                           /\ dt_tod x = dt_tod (midnight (mkdate 2023 11 15)))
                 (month_range (midnight (mkdate 2023 11 15))
                              (local_now may20)).
Proof.
  apply (month_range_covers (midnight (mkdate 2023 11 15)) (local_now may20));
    simpl; lia.
Defined.

Section MonthlyRows.

Variable strptime_ymd_hmsf : string -> result datetime.

Ltac dt_order :=
  unfold dt_leb, dt_ltb, dt_eqb, date_leb, date_ltb, date_eqb in *;
  repeat rewrite ?orb_true_iff, ?andb_true_iff, ?orb_false_iff,
    ?andb_false_iff, ?Z.ltb_lt, ?Z.eqb_eq, ?Z.ltb_ge, ?Z.eqb_neq in *;
  lia.

Lemma valid_date_fields d :
  valid_date d = true ->
  1 <= year d <= 9999 /\ 1 <= month d <= 12
  /\ 1 <= day d <= days_in_month (year d) (month d).
Proof.
  unfold valid_date. rewrite !andb_true_iff, !Z.leb_le. tauto.
Qed.

Lemma strptime_ymd_valid s x :
  strptime_ymd s = Ok x -> valid_date (dt_date x) = true /\ dt_tod x = 0.
Proof.
  unfold strptime_ymd. intros H.
  repeat case_match; try discriminate. injection H as <-.
  split; [assumption|reflexivity].
Qed.

Lemma mapM_Forall2 {A B : Type} (f : A -> result B) (R : A -> B -> Prop) l :
  (forall x, In x l -> exists y, f x = Ok y /\ R x y) ->
  exists r, mapM f l = Ok r /\ Forall2 R l r.
Proof.
  induction l as [|x l IH]; intros H; simpl.
  - exists []. split; [reflexivity|constructor].
  - destruct (H x (or_introl eq_refl)) as (y & Hy & HR).
    destruct IH as (r & Hr & HF); [intros z Hz; apply H; right; exact Hz|].
    rewrite Hy, Hr. simpl. exists (y :: r). split; [reflexivity|].
    constructor; assumption.
Qed.

Lemma annotate_readable m :
  has_join_date m ->
  exists m', annotate strptime_ymd_hmsf m = Ok m' /\ annotated m m'.
Proof.
  intros [(s & Hs & Hok) He]. unfold annotate, annotated.
  rewrite Hs. simpl.
  destruct (strptime_ymd s) as [j|] eqn:Ej; [|destruct Hok]. simpl.
  destruct (exited_at m) as [s'|] eqn:Ee; simpl in *.
  - destruct (strptime_ymd s') as [e|] eqn:Ex; [|destruct He]. simpl.
    eexists. split; [reflexivity|]. unfold joined_dt, exited_dt. simpl.
    split; [eauto|]. split.
    + intros e0 H. injection H as <-. eauto.
    + intros s0 e0 H1 H2. injection H1 as <-. congruence.
  - eexists. split; [reflexivity|]. unfold joined_dt, exited_dt. simpl.
    split; [eauto|]. split; [discriminate|]. intros s0 e0 H. discriminate H.
Qed.

Lemma min_loop_minimal rest :
  (forall x, In x rest -> x <> None) ->
  forall best,
  exists r,
    min_loop (Some best) rest = Ok (Some r)
    /\ (r = best \/ In (Some r) rest)
    /\ dt_leb r best = true
    /\ forall x, In (Some x) rest -> dt_leb r x = true.
Proof.
  induction rest as [|x rest IH]; intros Hall best; simpl.
  - exists best. split; [reflexivity|]. split; [auto|].
    split; [dt_order|]. intros x [].
  - destruct x as [a|]; [|exfalso; exact (Hall None (or_introl eq_refl) eq_refl)].
    assert (Hrest : forall x, In x rest -> x <> None)
      by (intros x Hx; apply Hall; right; exact Hx).
    destruct (dt_ltb a best) eqn:E.
    + destruct (IH Hrest a) as (r & Hr & Hin & Hle & Hmin).
      exists r. split; [exact Hr|]. split.
      { destruct Hin as [->|Hin]; auto. }
      split.
      { apply (dt_leb_trans r a best); [exact Hle|dt_order]. }
      intros x [Hx|Hx]; [injection Hx as <-; exact Hle|apply Hmin, Hx].
    + destruct (IH Hrest best) as (r & Hr & Hin & Hle & Hmin).
      exists r. split; [exact Hr|]. split.
      { destruct Hin as [->|Hin]; auto. }
      split; [exact Hle|].
      intros x [Hx|Hx]; [|apply Hmin, Hx]. injection Hx as <-.
      apply (dt_leb_trans r best a); [exact Hle|dt_order].
Qed.

Lemma py_min_minimal xs :
  xs <> [] -> (forall x, In x xs -> x <> None) ->
  exists r,
    py_min xs = Ok (Some r) /\ In (Some r) xs
    /\ forall x, In (Some x) xs -> dt_leb r x = true.
Proof.
  destruct xs as [|[b|] rest]; intros Hne Hall; [contradiction| |].
  - destruct (min_loop_minimal rest) with (best := b)
      as (r & Hr & Hin & Hle & Hmin).
    { intros x Hx. apply Hall. right. exact Hx. }
    exists r. split; [exact Hr|]. split.
    + destruct Hin as [->|Hin]; [left; reflexivity|right; exact Hin].
    + intros x [Hx|Hx]; [injection Hx as <-; exact Hle|apply Hmin, Hx].
  - exfalso. exact (Hall None (or_introl eq_refl) eq_refl).
Qed.

Lemma max_loop_maximal rest best :
  let r := max_loop best rest in
  (r = best \/ In r rest)
  /\ dt_leb best r = true
  /\ forall x, In x rest -> dt_leb x r = true.
Proof.
  revert best. induction rest as [|x rest IH]; intros best; simpl.
  - split; [auto|]. split; [dt_order|]. intros x [].
  - destruct (dt_ltb best x) eqn:E.
    + destruct (IH x) as (Hin & Hle & Hmax).
      split; [destruct Hin as [->|Hin]; auto|].
      split; [apply (dt_leb_trans best x _); [dt_order|exact Hle]|].
      intros y [<-|Hy]; [exact Hle|apply Hmax, Hy].
    + destruct (IH best) as (Hin & Hle & Hmax).
      split; [destruct Hin as [->|Hin]; auto|].
      split; [exact Hle|].
      intros y [<-|Hy]; [|apply Hmax, Hy].
      apply (dt_leb_trans x best _); [dt_order|exact Hle].
Qed.

Lemma month_row_ok community_slug members s :
  (forall m, In m members -> joined_dt m <> None) ->
  exists r,
    month_row community_slug members s = Ok r /\ row_month r = ym_of s.
Proof.
  intros Hall. unfold month_row.
  assert (Hact : forall b, exists l, filterM (active_at b) members = Ok l).
  { intros b. apply filterM_total. intros m Hm.
    unfold active_at, and_then, joined_le.
    destruct (joined_dt m) eqn:E; [|exfalso; exact (Hall m Hm E)].
    simpl. destruct (dt_leb d b); exact I. }
  destruct (Hact s) as [l1 ->].
  destruct (Hact (dt_sub_days (dt_add_months s 1) 1)) as [l2 ->]. simpl.
  destruct (filterM_total (joined_in s) members) as [l3 ->].
  { intros m Hm. unfold joined_in.
    destruct (joined_dt m) eqn:E; [exact I|exfalso; exact (Hall m Hm E)]. }
  destruct (filterM_total (exited_in s) members) as [l4 ->].
  { intros m Hm. unfold exited_in. destruct (exited_dt m); exact I. }
  simpl. eexists. split; reflexivity.
Qed.

Lemma Forall2_In_l {A B : Type} (R : A -> B -> Prop) l r x :
  Forall2 R l r -> In x l -> exists y, In y r /\ R x y.
Proof.
  induction 1 as [|a b l r HR HF IH]; intros Hin; [destruct Hin|].
  destruct Hin as [->|Hin]; [exists b; split; [left; reflexivity|exact HR]|].
  destruct (IH Hin) as (y & Hy & HRy). exists y. split; [right; exact Hy|exact HRy].
Qed.

Lemma Forall2_In_r {A B : Type} (R : A -> B -> Prop) l r y :
  Forall2 R l r -> In y r -> exists x, In x l /\ R x y.
Proof.
  induction 1 as [|a b l r HR HF IH]; intros Hin; [destruct Hin|].
  destruct Hin as [<-|Hin]; [exists a; split; [left; reflexivity|exact HR]|].
  destruct (IH Hin) as (x & Hx & HRx). exists x. split; [right; exact Hx|exact HRx].
Qed.

Lemma calculate_after_annotation w members ms' community_slug :
  members <> [] ->
  annotate_all strptime_ymd_hmsf members = Ok ms' ->
  calculate_monthly_metrics strptime_ymd_hmsf w members community_slug
  = (try! min_join := py_min (map joined_dt ms') in
     match min_join with
     | Some start =>
         mapM (month_row community_slug ms')
           (month_range start
              match omap exited_dt ms' ++ [local_now w] with
              | [] => local_now w
              | x :: rest0 => max_loop x rest0
              end)
     | None => Raise AttributeError
     end).
Proof.
  intros Hne Hann. unfold calculate_monthly_metrics.
  destruct members as [|m0 rest]; [contradiction|].
  rewrite Hann. reflexivity.
Qed.

(** On members whose join date is present and readable the monthly series
    is returned, with one row per calendar month: from the earliest join
    month through the month of today or of the latest exit, whichever is
    later. *)
Theorem monthly_series_one_row_per_month w members community_slug :
  members <> [] ->
  List.Forall has_join_date members ->
  valid_date (dt_date (local_now w)) = true -> 0 <= dt_tod (local_now w) ->
  exists rows first last,
    calculate_monthly_metrics strptime_ymd_hmsf w members community_slug
    = Ok rows
    /\ map (fun r => (row_month r).1 * 12 + (row_month r).2) rows
       = map (fun i => first + Z.of_nat i)
             (seq 0 (Z.to_nat (last - first + 1)))
    /\ (exists m s j, In m members /\ joined_at m = Some s
                      /\ strptime_ymd s = Ok j /\ month_index j = first)
    /\ (forall m s j, In m members -> joined_at m = Some s ->
                      strptime_ymd s = Ok j -> first <= month_index j)
    /\ month_index (local_now w) <= last
    /\ (forall m s e, In m members -> exited_at m = Some s ->
                      strptime_ymd s = Ok e -> month_index e <= last)
    /\ (last = month_index (local_now w)
        \/ exists m s e, In m members /\ exited_at m = Some s
                         /\ strptime_ymd s = Ok e /\ month_index e = last).
Proof.
  intros Hne Hall Hnow Htod. rewrite List.Forall_forall in Hall.
  destruct (mapM_Forall2 (annotate strptime_ymd_hmsf) annotated members)
    as (ms' & Hann & HF).
  { intros m Hin. apply annotate_readable, Hall, Hin. }
  rewrite (calculate_after_annotation w members ms' community_slug Hne Hann).
  (* every annotated member has a join datetime *)
  assert (Hjoined : forall m', In m' ms' -> joined_dt m' <> None).
  { intros m' Hin. destruct (Forall2_In_r _ _ _ _ HF Hin)
      as (m & _ & (s & j & _ & _ & Hj) & _). congruence. }
  assert (Hms' : ms' <> []).
  { inversion HF; subst; [contradiction|discriminate]. }
  destruct (py_min_minimal (map joined_dt ms')) as (start & Hmin & Hin & Hle).
  { destruct ms'; [contradiction|discriminate]. }
  { intros x Hx. apply in_map_iff in Hx as (m' & <- & Hm'). apply Hjoined, Hm'. }
  rewrite Hmin. simpl.
  (* the start is the join date of a member *)
  apply in_map_iff in Hin as (ms & Hms & Hms_in).
  destruct (Forall2_In_r _ _ _ _ HF Hms_in)
    as (mstart & Hmstart & (s0 & j0 & Hs0 & Hj0 & Hjd) & _).
  assert (j0 = start) by congruence. subst j0.
  destruct (strptime_ymd_valid _ _ Hj0) as [Hvs Hts].
  destruct (valid_date_fields _ Hvs) as (_ & Hsm & _).
  (* the end of the range *)
  set (exits := omap exited_dt ms').
  assert (Hexits : forall e, In e exits ->
            exists m s, In m members /\ exited_at m = Some s
                        /\ strptime_ymd s = Ok e).
  { intros e He. apply list_elem_of_In, list_elem_of_omap in He
      as (m' & Hm' & He'). apply list_elem_of_In in Hm'.
    destruct (Forall2_In_r _ _ _ _ HF Hm') as (m & Hmin' & _ & Hex & _).
    destruct (Hex e He') as (s & Hs & Hp). eauto. }
  set (max_exit := match exits ++ [local_now w] with
                   | [] => local_now w
                   | x :: rest0 => max_loop x rest0
                   end).
  assert (Hmax : In max_exit (exits ++ [local_now w])
                 /\ forall x, In x (exits ++ [local_now w]) ->
                              dt_leb x max_exit = true).
  { unfold max_exit. destruct (exits ++ [local_now w]) as [|x l] eqn:E.
    - destruct exits; discriminate.
    - destruct (max_loop_maximal l x) as (Hin' & Hle' & Hmax').
      split; [destruct Hin' as [->|H]; [left; reflexivity|right; exact H]|].
      intros y [<-|Hy]; [exact Hle'|apply Hmax', Hy]. }
  destruct Hmax as [Hmax_in Hmax_le].
  assert (Hvalid_end : 1 <= month (dt_date max_exit) <= 12
                       /\ 1 <= day (dt_date max_exit)
                       /\ 0 <= dt_tod max_exit).
  { apply in_app_iff in Hmax_in as [He|[<-|[]]].
    - destruct (Hexits _ He) as (m & s & _ & _ & Hp).
      destruct (strptime_ymd_valid _ _ Hp) as [Hv Ht].
      destruct (valid_date_fields _ Hv) as (_ & H1 & H2). lia.
    - destruct (valid_date_fields _ Hnow) as (_ & H1 & H2). lia. }
  destruct Hvalid_end as (Hem & Hed & Het).
  destruct (month_range_covers start max_exit) as [Hcov Hfirst];
    try assumption; try lia.
  (* every month gives a row *)
  destruct (mapM_Forall2 (month_row community_slug ms')
              (fun s r => row_month r = ym_of s) (month_range start max_exit))
    as (rows & Hrows & HFrows).
  { intros s _. apply month_row_ok, Hjoined. }
  rewrite Hrows.
  exists rows, (month_index start), (month_index max_exit).
  split; [reflexivity|]. split.
  { rewrite <- Hcov. clear - HFrows.
    induction HFrows as [|s r l rs HR HF IH]; [reflexivity|].
    simpl. rewrite HR, IH. reflexivity. }
  split; [exists mstart, s0, start; auto|]. split.
  { intros m s j Hmem Hs Hj.
    destruct (Forall2_In_l _ _ _ _ HF Hmem)
      as (m' & Hm' & (s' & j' & Hs' & Hj' & Hjd') & _).
    assert (j' = j) by congruence. subst j'.
    assert (Hlej : dt_leb start j = true).
    { apply Hle. rewrite <- Hjd'. apply in_map. exact Hm'. }
    destruct (strptime_ymd_valid _ _ Hj) as [Hv _].
    destruct (valid_date_fields _ Hv) as (_ & Hjm & _).
    apply dt_leb_index; assumption. }
  split.
  { destruct (valid_date_fields _ Hnow) as (_ & Hnm & _).
    apply dt_leb_index; [exact Hnm|exact Hem|].
    apply Hmax_le, in_app_iff. right. left. reflexivity. }
  split.
  { intros m s e Hmem Hs He.
    destruct (Forall2_In_l _ _ _ _ HF Hmem) as (m' & Hm' & _ & _ & Hex).
    specialize (Hex s e Hs He).
    destruct (strptime_ymd_valid _ _ He) as [Hv _].
    destruct (valid_date_fields _ Hv) as (_ & Hemm & _).
    apply dt_leb_index; [exact Hemm|exact Hem|].
    apply Hmax_le, in_app_iff. left.
    apply list_elem_of_In, list_elem_of_omap. exists m'.
    split; [apply list_elem_of_In; exact Hm'|exact Hex]. }
  apply in_app_iff in Hmax_in as [He|[<-|[]]]; [right|left; reflexivity].
  destruct (Hexits _ He) as (m & s & Hmem & Hs & Hp). eauto 8.
Qed.

End MonthlyRows.

Lemma monthly_series_one_row_per_month_witness :
  exists rows first last,
    calculate_monthly_metrics no_second_format may20
      [long_standing; brief_one] "slug"
    = Ok rows
    /\ map (fun r => (row_month r).1 * 12 + (row_month r).2) rows
       = map (fun i => first + Z.of_nat i)
             (seq 0 (Z.to_nat (last - first + 1)))
    /\ (exists m s j, In m [long_standing; brief_one]
                      /\ joined_at m = Some s
                      /\ strptime_ymd s = Ok j /\ month_index j = first)
    /\ (forall m s j, In m [long_standing; brief_one] ->
                      joined_at m = Some s ->
                      strptime_ymd s = Ok j -> first <= month_index j)
    /\ month_index (local_now may20) <= last
    /\ (forall m s e, In m [long_standing; brief_one] ->
                      exited_at m = Some s ->
                      strptime_ymd s = Ok e -> month_index e <= last)
    /\ (last = month_index (local_now may20)
        \/ exists m s e, In m [long_standing; brief_one]
                         /\ exited_at m = Some s
                         /\ strptime_ymd s = Ok e /\ month_index e = last).
Proof.
  apply (monthly_series_one_row_per_month no_second_format may20
           [long_standing; brief_one] "slug"%string).
  - discriminate.
  - repeat (apply List.Forall_cons;
            [split; [eexists; split; [reflexivity|exact I]|exact I]|]).
    apply List.Forall_nil.
  - reflexivity.
  - simpl. lia.
Defined.

(** ** The billing-product table *)

Section BillingFacts.

Variable float_of_str : string -> result Q.

Lemma truthy_Some k : truthy (Some k) = true <-> k <> EmptyString.
Proof. destruct k; simpl; split; congruence. Qed.

Lemma add_product_lookup d product product_id result k :
  add_product d product product_id result !! k
  = match product, product_id with
    | Some p, Some k' =>
        if negb (bool_decide (p = ∅)) && truthy (Some k') && String.eqb k' k
        then Some (product_entry d p)
        else result !! k
    | _, _ => result !! k
    end.
Proof.
  unfold add_product. destruct product as [p|]; [|reflexivity].
  destruct product_id as [k'|].
  - destruct (negb (bool_decide (p = ∅)) && truthy (Some k')) eqn:E;
      [|reflexivity].
    change (str_of (Some k')) with k'.
    rewrite andb_true_l.
    destruct (String.eqb_spec k' k) as [->|Hne].
    + apply lookup_insert_eq.
    + apply lookup_insert_ne. exact Hne.
  - change (truthy None) with false. rewrite andb_false_r. reflexivity.
Qed.

Lemma add_product_origin d product product_id result k bp :
  add_product d product product_id result !! k = Some bp ->
  slot_writes d product product_id k bp \/ result !! k = Some bp.
Proof.
  rewrite add_product_lookup.
  destruct product as [p|]; [|auto]. destruct product_id as [k'|]; [|auto].
  destruct (negb (bool_decide (p = ∅))) eqn:Ep; [|auto].
  destruct (truthy (Some k')) eqn:Et; [|auto].
  destruct (String.eqb_spec k' k) as [->|Hne]; [|auto].
  cbn [andb]. intros H.
  assert (Hbp : bp = product_entry d p) by congruence.
  left. exists p.
  apply negb_true_iff, bool_decide_eq_false in Ep.
  apply truthy_Some in Et. auto.
Qed.

Lemma add_product_other d product product_id result k :
  product_id <> Some k ->
  add_product d product product_id result !! k = result !! k.
Proof.
  intros Hne. rewrite add_product_lookup.
  destruct product as [p|]; [|reflexivity].
  destruct product_id as [k'|]; [|reflexivity].
  destruct (String.eqb_spec k' k) as [->|_]; [congruence|].
  rewrite andb_false_r. reflexivity.
Qed.

Lemma add_product_hit d p result k :
  p <> ∅ -> k <> EmptyString ->
  add_product d (Some p) (Some k) result !! k = Some (product_entry d p).
Proof.
  intros Hp Hk. rewrite add_product_lookup, String.eqb_refl.
  apply (proj2 (bool_decide_eq_false _)) in Hp. rewrite Hp.
  apply (proj2 (truthy_Some k)) in Hk. rewrite Hk. reflexivity.
Qed.

Lemma fold_add_object_origin objs result k bp :
  fold_left add_object objs result !! k = Some bp ->
  (exists obj, In obj objs /\ object_writes obj k bp)
  \/ result !! k = Some bp.
Proof.
  revert result. induction objs as [|obj rest IH]; intros result; simpl;
    [auto|].
  intros H. destruct (IH _ H) as [(o & Ho & Hw)|Hr].
  - left. exists o. auto.
  - unfold add_object in Hr.
    apply add_product_origin in Hr as [Hw|Hr];
      [left; exists obj; unfold object_writes; auto|].
    apply add_product_origin in Hr as [Hw|Hr];
      [left; exists obj; unfold object_writes; auto|].
    apply add_product_origin in Hr as [Hw|Hr];
      [left; exists obj; unfold object_writes; auto|].
    auto.
Qed.

Lemma fold_add_object_other objs result k :
  Forall (leaves_alone k) objs ->
  fold_left add_object objs result !! k = result !! k.
Proof.
  intros H. revert result.
  induction H as [|obj rest (Hm & Ha & Ho) _ IH]; intros result; simpl;
    [reflexivity|].
  rewrite IH. unfold add_object.
  rewrite (add_product_other _ _ _ _ _ Ho), (add_product_other _ _ _ _ _ Ha).
  apply add_product_other. exact Hm.
Qed.

Lemma slot_writes_entry d product product_id k bp :
  slot_writes d product product_id k bp ->
  k <> EmptyString /\ bp_interval bp <> None /\ bp_price bp <> None.
Proof.
  intros (p & _ & _ & _ & Hne & ->). simpl.
  split; [exact Hne|]. split; discriminate.
Qed.

(** Every entry of the billing-product table was written by an object
    of the fetched list for a non-empty product under a non-empty id, and
    carries both an interval and a price key; the normalizer, which treats an
    empty id as missing, resolves every member carrying that id to this
    entry. *)
Theorem billing_table_entries objs k bp :
  billing_products_to_dict objs !! k = Some bp ->
  k <> EmptyString
  /\ bp_interval bp <> None /\ bp_price bp <> None
  /\ (exists obj, In obj objs /\ object_writes obj k bp)
  /\ (forall member, billingProductId member = Some k ->
        resolved_product member (Some (billing_products_to_dict objs))
        = Some bp).
Proof.
  intros Hk.
  assert (Horigin : exists obj, In obj objs /\ object_writes obj k bp).
  { unfold billing_products_to_dict in Hk.
    apply fold_add_object_origin in Hk as [H|Hk]; [exact H|].
    rewrite lookup_empty in Hk. discriminate. }
  destruct Horigin as (obj & Hobj & Hw).
  assert (Hentry : k <> EmptyString /\ bp_interval bp <> None
                   /\ bp_price bp <> None).
  { destruct Hw as [Hw|[Hw|Hw]]; exact (slot_writes_entry _ _ _ _ _ Hw). }
  destruct Hentry as (H1 & H2 & H3).
  split; [exact H1|]. split; [exact H2|]. split; [exact H3|].
  split; [exists obj; auto|].
  intros member Hm. unfold resolved_product. rewrite Hm.
  destruct k; [contradiction|exact Hk].
Qed.

(** A monthly product without an interval key falls back to the
    interval month: when no later object of the list and neither the annual
    nor the one-time slot of the same object uses its id, a member carrying
    that id is put on the monthly plan, with the amount as price and as mrr,
    and with price 0 when the amount is missing or unreadable. *)
Theorem monthly_product_gives_monthly_plan before obj later p k member :
  monthlyBillingProduct obj = Some p -> p <> ∅ ->
  p !! "recurringInterval"%string = None ->
  p !! "recurring_interval"%string = None ->
  monthlyBpId obj = Some k -> k <> EmptyString ->
  annualBpId obj <> Some k -> oneTimeBpId obj <> Some k ->
  Forall (leaves_alone k) later ->
  billingProductId member = Some k ->
  let price :=
    match p !! "amount"%string with
    | Some v => match py_float float_of_str v with
                | Ok x => x
                | Raise _ => 0%Q
                end
    | None => 0%Q
    end in
  get_plan_type_price_and_mrr float_of_str member
    (Some (billing_products_to_dict (before ++ obj :: later)))
  = (monthly, price, price).
Proof.
  intros Hp Hne Hi1 Hi2 Hid Hk Ha Ho Hlater Hm price.
  assert (Hlook : billing_products_to_dict (before ++ obj :: later) !! k
                  = Some (product_entry "month" p)).
  { unfold billing_products_to_dict. rewrite fold_left_app. simpl.
    rewrite (fold_add_object_other _ _ _ Hlater). unfold add_object.
    rewrite (add_product_other _ _ _ _ _ Ho), (add_product_other _ _ _ _ _ Ha).
    rewrite Hp, Hid. apply add_product_hit; assumption. }
  rewrite (get_plan_resolved float_of_str member _ (product_entry "month" p)).
  - unfold interval_of, raw_price_of, product_entry. simpl.
    rewrite Hi1, Hi2. simpl. unfold price.
    destruct (p !! "amount"%string); reflexivity.
  - unfold resolved_product. rewrite Hm.
    destruct k; [contradiction|exact Hlook].
Qed.

(** The three slots of an object are written in the order monthly,
    annual, one-time, so an id shared by the monthly and the annual product
    of one object ends on the annual product: the member is put on the
    annual plan with a twelfth of the annual amount as mrr. *)
Theorem shared_id_ends_on_annual_product before obj later pm pa k member :
  monthlyBillingProduct obj = Some pm -> monthlyBpId obj = Some k ->
  annualBillingProduct obj = Some pa -> pa <> ∅ ->
  pa !! "recurringInterval"%string = None ->
  pa !! "recurring_interval"%string = None ->
  annualBpId obj = Some k -> k <> EmptyString ->
  oneTimeBpId obj <> Some k ->
  Forall (leaves_alone k) later ->
  billingProductId member = Some k ->
  let price :=
    match pa !! "amount"%string with
    | Some v => match py_float float_of_str v with
                | Ok x => x
                | Raise _ => 0%Q
                end
    | None => 0%Q
    end in
  get_plan_type_price_and_mrr float_of_str member
    (Some (billing_products_to_dict (before ++ obj :: later)))
  = (annual, price, (price / 12)%Q).
Proof.
  intros _ _ Hp Hne Hi1 Hi2 Hid Hk Ho Hlater Hm price.
  assert (Hlook : billing_products_to_dict (before ++ obj :: later) !! k
                  = Some (product_entry "year" pa)).
  { unfold billing_products_to_dict. rewrite fold_left_app. simpl.
    rewrite (fold_add_object_other _ _ _ Hlater). unfold add_object.
    rewrite (add_product_other _ _ _ _ _ Ho).
    rewrite Hp, Hid. apply add_product_hit; assumption. }
  rewrite (get_plan_resolved float_of_str member _ (product_entry "year" pa)).
  - unfold interval_of, raw_price_of, product_entry. simpl.
    rewrite Hi1, Hi2. simpl. unfold price.
    destruct (pa !! "amount"%string); reflexivity.
  - unfold resolved_product. rewrite Hm.
    destruct k; [contradiction|exact Hlook].
Qed.

End BillingFacts.

Lemma billing_table_entries_witness :
  "bp_y"%string <> EmptyString
  /\ bp_interval (product_entry "year" (plain_product 290)) <> None
  /\ bp_price (product_entry "year" (plain_product 290)) <> None
  /\ (exists obj, In obj sample_objects
        /\ object_writes obj "bp_y" (product_entry "year" (plain_product 290)))
  /\ (forall member, billingProductId member = Some "bp_y"%string ->
        resolved_product member
          (Some (billing_products_to_dict sample_objects))
        = Some (product_entry "year" (plain_product 290))).
Proof.
  apply (billing_table_entries sample_objects "bp_y"
           (product_entry "year" (plain_product 290))).
  vm_compute. reflexivity.
Defined.

Lemma monthly_product_gives_monthly_plan_witness :
  get_plan_type_price_and_mrr float_of_digits
    (mkRawMember (Some "bp_m"%string) VNone VNone)
    (Some (billing_products_to_dict sample_objects))
  = (monthly, 29%Q, 29%Q).
Proof.
  apply (monthly_product_gives_monthly_plan float_of_digits []
           (mkProductObject (Some (plain_product 29)) (Some "bp_m"%string)
              (Some (plain_product 290)) (Some "bp_y"%string) None None)
           [mkProductObject None None None (Some "bp_none"%string)
              (Some (plain_product 99)) (Some "bp_once"%string)]
           (plain_product 29) "bp_m"
           (mkRawMember (Some "bp_m"%string) VNone VNone)).
  - reflexivity.
  - intros H. apply (f_equal (fun d => d !! "amount"%string)) in H.
    vm_compute in H. discriminate H.
  - vm_compute. reflexivity.
  - vm_compute. reflexivity.
  - reflexivity.
  - discriminate.
  - discriminate.
  - discriminate.
  - apply List.Forall_cons; [|apply List.Forall_nil].
    unfold leaves_alone. simpl. repeat split; discriminate.
  - reflexivity.
Defined.

Lemma shared_id_ends_on_annual_product_witness :
  get_plan_type_price_and_mrr float_of_digits
    (mkRawMember (Some "bp_both"%string) VNone VNone)
    (Some (billing_products_to_dict
             [mkProductObject (Some (plain_product 29))
                (Some "bp_both"%string) (Some (plain_product 290))
                (Some "bp_both"%string) None None]))
  = (annual, 290%Q, (290 / 12)%Q).
Proof.
  apply (shared_id_ends_on_annual_product float_of_digits []
           (mkProductObject (Some (plain_product 29)) (Some "bp_both"%string)
              (Some (plain_product 290)) (Some "bp_both"%string) None None)
           [] (plain_product 29) (plain_product 290) "bp_both"
           (mkRawMember (Some "bp_both"%string) VNone VNone)).
  - reflexivity.
  - reflexivity.
  - reflexivity.
  - intros H. apply (f_equal (fun d => d !! "amount"%string)) in H.
    vm_compute in H. discriminate H.
  - vm_compute. reflexivity.
  - vm_compute. reflexivity.
  - reflexivity.
  - discriminate.
  - discriminate.
  - apply List.Forall_nil.
  - reflexivity.
Defined.
